(** * ForceGraph: the force-directed layout view of the correlation graph

    A shallow embedding of [client/src/components/ForceGraph.jsx]: the
    seeding of node positions from the position cache, the classification
    of nodes relative to the user's holdings, the configuration handed to
    the d3 force simulation, the drag handlers, and the life cycle of the
    React effect that owns the simulation.

    Conventions.
    - A JavaScript number is a [num]: an exact rational, or one of the
      non-finite values.  The component does arithmetic in one place only
      (the jitter around the canvas centre), on finite operands.  The
      source rounds the result of each operation to a double; the model
      keeps the exact value, and what is proved of the seeded coordinate
      is stated so that it holds of the rounded value as well
      ([rounded_jitter]).
    - [null] and [undefined] are both read through [option]; the places
      where the source distinguishes them are commented.
    - [nodePositionsRef.current], a plain object used as a dictionary, is a
      [gmap string Entry].
    - d3 is loaded from a CDN ([window.d3]) and is not part of the
      component.  What the component asks of it (constant accessors, the
      timer of a simulation, the gesture counter of a drag behaviour) is
      written down in the section on the simulation object; its physics is
      a parameter. *)

From Stdlib Require Import ZArith QArith Qpower Lia Lqa.
From stdpp Require Import base option list strings gmap.

Close Scope Q_scope.
Open Scope Z_scope.

(** ** JavaScript numbers *)

Inductive num :=
  | Fin (q : Q)
  | NaN
  | Inf (negative : bool).

(** Truthiness of a number, as [||] and [if] see it: [0] and [NaN] are
    falsy, everything else is truthy. *)
Definition truthy (v : num) : bool :=
  match v with
  | Fin q => negb (Qeq_bool q 0)
  | NaN => false
  | Inf _ => true
  end.

(** Numeric equality of two numbers ([==] on rationals, never true of [NaN]). *)
Definition num_eqb (a b : num) : bool :=
  match a, b with
  | Fin p, Fin q => Qeq_bool p q
  | Inf s, Inf t => Bool.eqb s t
  | _, _ => false
  end.

(** ** The props: one snapshot of the graph *)

Record NodeIn := {
  nin_id : string;
  nin_name : string;
}.

Record LinkIn := {
  lin_source : string;
  lin_target : string;
  lin_value : Q;
}.

Record Props := {
  nodes : list NodeIn;
  links : list LinkIn;
  myStockCodes : list string;
}.

(** ** The position cache, [nodePositionsRef.current] *)

(** An entry is the object literal [{ x, y, fx, fy }] the handlers store:
    [x] and [y] are numbers, [fx] and [fy] are [null] or a number. *)
Record Entry := {
  e_x : num;
  e_y : num;
  e_fx : option num;
  e_fy : option num;
}.

Abbreviation Cache := (gmap string Entry).

(** ** The per-run clones *)

Inductive NodeType :=
  | my_stock     (* 'my-stock' *)
  | related      (* 'related'  *)
  | other.       (* 'other'    *)

(** A simulation node: the spread of the props node, the seeded position
    and pin, the styling fields the classifier assigns (undefined until
    then), and the velocity d3 keeps on the object. *)
Record Node := {
  nd_id : string;
  nd_name : string;
  nd_x : num;
  nd_y : num;
  nd_fx : option num;
  nd_fy : option num;
  nd_type : option NodeType;
  nd_radius : option Z;
  nd_color : option string;
  nd_vx : option num;
  nd_vy : option num;
}.

(** An end of a link is the id it came with, or, once [d3.forceLink] has
    resolved it, a reference to a node of [nodesData] (by position). *)
Inductive endpoint :=
  | EId (s : string)
  | ERef (i : nat).

Record SimLink := {
  ln_source : endpoint;
  ln_target : endpoint;
  ln_value : Q;
}.

(** ** Seeding (lines 19-29) *)

(** [Math.random()]: a stream of draws and the number of draws consumed so
    far, threaded through the seeding. *)
Definition Rng := nat → Q.

(** [(Math.random() - 0.5) * 100] for the draw [r]. *)
Definition jitter_term (r : Q) : Q := ((r - (1 # 2)) * 100)%Q.

(** [c + (Math.random() - 0.5) * 100] for the draw [r], exactly. *)
Definition jitter (c r : Q) : num := Fin (c + jitter_term r)%Q.

(** The same expression as line 24 computes it: each of the three
    operations is followed by the rounding [fl] to a double.  [jitter] is
    the case where nothing is rounded. *)
Definition rounded_jitter (fl : Q → Q) (c r : Q) : Q :=
  fl (c + fl (fl (r - (1 # 2)) * 100))%Q.

(** [cached?.x || c + (Math.random() - 0.5) * 100]: the right operand, and
    with it the draw, is evaluated only when the left one is falsy.
    [v = None] is [undefined] (no cache entry). *)
Definition seed_coord (rng : Rng) (v : option num) (c : Q) (k : nat) : num * nat :=
  match v with
  | Some a => if truthy a then (a, k) else (jitter c (rng k), S k)
  | None => (jitter c (rng k), S k)
  end.

(** [cached?.fx || null]: [undefined], [null], [0] and [NaN] all give [null]. *)
Definition seed_pin (v : option num) : option num :=
  match v with
  | Some a => if truthy a then Some a else None
  | None => None
  end.

Section Seeding.
Variables (width height : Z) (cache : Cache) (rng : Rng).

Definition centre (extent : Z) : Q := (inject_Z extent / 2)%Q.

Definition seed_node (d : NodeIn) (k : nat) : Node * nat :=
  let cached := cache !! nin_id d in
  let '(x, k1) := seed_coord rng (e_x <$> cached) (centre width) k in
  let '(y, k2) := seed_coord rng (e_y <$> cached) (centre height) k1 in
  ({| nd_id := nin_id d; nd_name := nin_name d;
      nd_x := x; nd_y := y;
      nd_fx := seed_pin (cached ≫= e_fx);
      nd_fy := seed_pin (cached ≫= e_fy);
      nd_type := None; nd_radius := None; nd_color := None;
      nd_vx := None; nd_vy := None |}, k2).

(** [nodes.map(d => ...)], left to right. *)
Fixpoint seed_nodes (ds : list NodeIn) (k : nat) : list Node * nat :=
  match ds with
  | [] => ([], k)
  | d :: ds' =>
      let '(n, k1) := seed_node d k in
      let '(ns, k2) := seed_nodes ds' k1 in
      (n :: ns, k2)
  end.
End Seeding.

(** [links.map(d => ({ ...d }))] *)
Definition clone_link (l : LinkIn) : SimLink :=
  {| ln_source := EId (lin_source l);
     ln_target := EId (lin_target l);
     ln_value := lin_value l |}.

(** ** Classification (lines 33-57) *)

(** [myStockCodes.includes(s)] for a string [s]. *)
Definition includes (codes : list string) (s : string) : bool :=
  bool_decide (s ∈ codes).

Section Classifier.
Variables (codes : list string) (nds : list Node) (lks : list SimLink).

(** [link.source === node.id]: an object is never [===] to a string. *)
Definition ep_is (ep : endpoint) (nid : string) : bool :=
  match ep with
  | EId s => bool_decide (s = nid)
  | ERef _ => false
  end.

(** [myStockCodes.includes(link.target)] *)
Definition ep_in (ep : endpoint) : bool :=
  match ep with
  | EId s => includes codes s
  | ERef _ => false
  end.

(** [link.source?.id]: [undefined] ([None]) on a string. *)
Definition ep_id (ep : endpoint) : option string :=
  match ep with
  | EId _ => None
  | ERef i => nd_id <$> nds !! i
  end.

(** [link.source?.id === node.id] *)
Definition ep_id_is (ep : endpoint) (nid : string) : bool :=
  match ep_id ep with
  | Some s => bool_decide (s = nid)
  | None => false
  end.

(** [myStockCodes.includes(link.target?.id)] *)
Definition ep_id_in (ep : endpoint) : bool :=
  match ep_id ep with
  | Some s => includes codes s
  | None => false
  end.

Definition isRelated (nid : string) : bool :=
  existsb (λ link,
    (ep_is (ln_source link) nid && ep_in (ln_target link)) ||
    (ep_is (ln_target link) nid && ep_in (ln_source link)) ||
    (ep_id_is (ln_source link) nid && ep_id_in (ln_target link)) ||
    (ep_id_is (ln_target link) nid && ep_id_in (ln_source link))) lks.

Definition styled (node : Node) (t : NodeType) (r : Z) (c : string) : Node :=
  {| nd_id := nd_id node; nd_name := nd_name node;
     nd_x := nd_x node; nd_y := nd_y node;
     nd_fx := nd_fx node; nd_fy := nd_fy node;
     nd_type := Some t; nd_radius := Some r; nd_color := Some c;
     nd_vx := nd_vx node; nd_vy := nd_vy node |}.

Definition classify (node : Node) : Node :=
  if includes codes (nd_id node) then styled node my_stock 30 "#007AFF"
  else if isRelated (nd_id node) then styled node related 20 "#34C759"
  else styled node other 10 "#D1D1D6".
End Classifier.

(** ** The data of one layout run (lines 18-57) *)

Definition linksData (p : Props) : list SimLink := map clone_link (links p).

Definition seeded (p : Props) (w h : Z) (cache : Cache) (rng : Rng) : list Node :=
  fst (seed_nodes w h cache rng (nodes p) 0).

Definition nodesData (p : Props) (w h : Z) (cache : Cache) (rng : Rng) : list Node :=
  let nds := seeded p w h cache rng in
  map (classify (myStockCodes p) nds (linksData p)) nds.

(** ** The simulation object (lines 68-76) *)

(** What the component configures and observes of a [d3.forceSimulation]:
    the nodes and links it was given, [alpha] and [alphaTarget], whether
    its timer is active, and the gestures in progress on the drag
    behaviour built for it by [drag(simulation)] (each entry is the
    position of the dragged node in [sim_nodes]). *)
Record Simulation := {
  sim_nodes : list Node;
  sim_links : list SimLink;
  sim_alpha : Q;
  sim_alphaTarget : Q;
  sim_running : bool;
  sim_gestures : list nat;
}.

(** [.distance(100)] and [.strength(0.3)] on the link force: a number
    installs the constant accessor. *)
Definition link_distance (l : SimLink) : Q := 100.
Definition link_strength (l : SimLink) : Q := 3 # 10.

(** [.strength(-200)] on the many-body force, [.strength(0.05)] on the
    centring force, [.radius(d => d.radius + 10)] on the collision force. *)
Definition charge_strength (n : Node) : Q := - (200).
Definition centre_strength : Q := 5 # 100.
Definition collide_radius (n : Node) : option Z := (λ r, r + 10) <$> nd_radius n.

Definition alpha0 : Q := 3 # 10.        (* .alpha(0.3) *)
Definition alphaDecay : Q := 2 # 100.   (* .alphaDecay(0.02) *)
Definition alphaMin : Q := 1 # 1000.    (* d3's default, never changed *)

(** [d3.forceLink(linksData).id(d => d.id)], when the force is registered:
    an endpoint that is not an object is looked up in the map from id to
    node (built left to right, so the last node with an id wins); an id
    that names no node throws "node not found". *)
Fixpoint node_by_id (nds : list Node) (s : string) (i : nat) : option nat :=
  match nds with
  | [] => None
  | n :: r =>
      match node_by_id r s (S i) with
      | Some j => Some j
      | None => if bool_decide (nd_id n = s) then Some i else None
      end
  end.

Definition resolve (nds : list Node) (ep : endpoint) : option endpoint :=
  match ep with
  | EId s => ERef <$> node_by_id nds s 0
  | ERef i => Some (ERef i)
  end.

Definition resolve_link (nds : list Node) (l : SimLink) : option SimLink :=
  src ← resolve nds (ln_source l);
  tgt ← resolve nds (ln_target l);
  Some {| ln_source := src; ln_target := tgt; ln_value := ln_value l |}.

(** [None]: the exception. *)
Definition resolve_links (nds : list Node) (lks : list SimLink) : option (list SimLink) :=
  mapM (resolve_link nds) lks.

(** The forces and the integration step of d3, given the new [alpha]. *)
Definition Physics := Q → list SimLink → list Node → list Node.

Definition Qlt_bool (a b : Q) : bool := negb (Qle_bool b a).

(** [isNaN(v)] on a field that may be missing: [undefined] is [NaN]. *)
Definition isNaN (v : option num) : bool :=
  match v with
  | None | Some NaN => true
  | Some _ => false
  end.

(** What [d3.forceSimulation(nodes)] does to each node before anything
    else ([initializeNodes]): a pinned coordinate is moved onto its pin,
    and a velocity that is missing or [NaN] becomes [(0, 0)].  A node whose
    [x] or [y] is [NaN] at that point is placed on a spiral by sines and
    cosines; the seeding never hands over such a node
    ([seeding_leaves_no_nan]), and this branch is left as it is found. *)
Definition initialize_node (n : Node) : Node :=
  let still := isNaN (nd_vx n) || isNaN (nd_vy n) in
  {| nd_id := nd_id n; nd_name := nd_name n;
     nd_x := default (nd_x n) (nd_fx n); nd_y := default (nd_y n) (nd_fy n);
     nd_fx := nd_fx n; nd_fy := nd_fy n;
     nd_type := nd_type n; nd_radius := nd_radius n; nd_color := nd_color n;
     nd_vx := if still then Some (Fin 0) else nd_vx n;
     nd_vy := if still then Some (Fin 0) else nd_vy n |}.

(** The simulation of lines 68-74, once every call of the chain has
    returned: the nodes initialised, the links resolved, [alpha] at 0.3
    and the timer started. *)
Definition new_sim (nds : list Node) (lks : list SimLink) : Simulation :=
  {| sim_nodes := initialize_node <$> nds; sim_links := lks;
     sim_alpha := alpha0; sim_alphaTarget := 0;
     sim_running := true; sim_gestures := [] |}.

(** The simulation of line 68 when [d3.forceLink] throws at line 69:
    [d3.forceSimulation(nodesData)] has already initialised the nodes and
    started the timer with d3's initial [alpha] of 1; no force and no
    callback is registered. *)
Definition orphan_sim (nds : list Node) : Simulation :=
  {| sim_nodes := initialize_node <$> nds; sim_links := [];
     sim_alpha := 1; sim_alphaTarget := 0;
     sim_running := true; sim_gestures := [] |}.

Definition sim_stop (s : Simulation) : Simulation :=
  {| sim_nodes := sim_nodes s; sim_links := sim_links s;
     sim_alpha := sim_alpha s; sim_alphaTarget := sim_alphaTarget s;
     sim_running := false; sim_gestures := sim_gestures s |}.

(** [simulation.alphaTarget(0.1).restart()] *)
Definition sim_reheat (s : Simulation) : Simulation :=
  {| sim_nodes := sim_nodes s; sim_links := sim_links s;
     sim_alpha := sim_alpha s; sim_alphaTarget := 1 # 10;
     sim_running := true; sim_gestures := sim_gestures s |}.

(** [simulation.alphaTarget(0)] *)
Definition sim_cool (s : Simulation) : Simulation :=
  {| sim_nodes := sim_nodes s; sim_links := sim_links s;
     sim_alpha := sim_alpha s; sim_alphaTarget := 0;
     sim_running := sim_running s; sim_gestures := sim_gestures s |}.

Definition with_nodes (s : Simulation) (nds : list Node) : Simulation :=
  {| sim_nodes := nds; sim_links := sim_links s;
     sim_alpha := sim_alpha s; sim_alphaTarget := sim_alphaTarget s;
     sim_running := sim_running s; sim_gestures := sim_gestures s |}.

Definition with_gestures (s : Simulation) (g : list nat) : Simulation :=
  {| sim_nodes := sim_nodes s; sim_links := sim_links s;
     sim_alpha := sim_alpha s; sim_alphaTarget := sim_alphaTarget s;
     sim_running := sim_running s; sim_gestures := g |}.

(** One firing of the simulation's timer, up to the callbacks: [alpha]
    moves towards [alphaTarget], the physics runs, and the timer stops
    when [alpha] has fallen below [alphaMin]. *)
Definition next_alpha (s : Simulation) : Q :=
  (sim_alpha s + (sim_alphaTarget s - sim_alpha s) * alphaDecay)%Q.

Definition sim_step (phys : Physics) (s : Simulation) : Simulation :=
  let a := next_alpha s in
  {| sim_nodes := phys a (sim_links s) (sim_nodes s);
     sim_links := sim_links s;
     sim_alpha := a; sim_alphaTarget := sim_alphaTarget s;
     sim_running := negb (Qlt_bool a alphaMin);
     sim_gestures := sim_gestures s |}.

(** ** The callbacks of a run *)

(** What the "tick" callback paints (lines 113-127): the ends of every
    line, the centre of every circle, the anchor of every label.
    [d.source.x] is [undefined] ([None]) on an unresolved end. *)
Record Scene := {
  sc_lines : list ((option num * option num) * (option num * option num));
  sc_circles : list (num * num);
  sc_labels : list (num * num);
}.

Definition ep_x (nds : list Node) (ep : endpoint) : option num :=
  match ep with
  | EId _ => None
  | ERef i => nd_x <$> nds !! i
  end.

Definition ep_y (nds : list Node) (ep : endpoint) : option num :=
  match ep with
  | EId _ => None
  | ERef i => nd_y <$> nds !! i
  end.

Definition on_tick (nds : list Node) (lks : list SimLink) : Scene :=
  {| sc_lines := map (λ d, ((ep_x nds (ln_source d), ep_y nds (ln_source d)),
                             (ep_x nds (ln_target d), ep_y nds (ln_target d)))) lks;
     sc_circles := map (λ d, (nd_x d, nd_y d)) nds;
     sc_labels := map (λ d, (nd_x d, nd_y d)) nds |}.

Definition entry_of (n : Node) : Entry :=
  {| e_x := nd_x n; e_y := nd_y n; e_fx := nd_fx n; e_fy := nd_fy n |}.

(** The "end" callback (lines 130-134). *)
Definition on_end (nds : list Node) (cache : Cache) : Cache :=
  foldl (λ c n, <[nd_id n := entry_of n]> c) cache nds.

Definition pin (n : Node) (fx fy : option num) : Node :=
  {| nd_id := nd_id n; nd_name := nd_name n;
     nd_x := nd_x n; nd_y := nd_y n;
     nd_fx := fx; nd_fy := fy;
     nd_type := nd_type n; nd_radius := nd_radius n; nd_color := nd_color n;
     nd_vx := nd_vx n; nd_vy := nd_vy n |}.

(** The drag handlers (lines 138-161).  [active] is [event.active]; the
    subject is the node at position [i]. *)
Definition dragstarted (active i : nat) (s : Simulation) : Simulation :=
  let s1 := if bool_decide (active = 0%nat) then sim_reheat s else s in
  with_nodes s1 (alter (λ n, pin n (Some (nd_x n)) (Some (nd_y n))) i (sim_nodes s1)).

Definition dragged (i : nat) (ex ey : num) (s : Simulation) : Simulation :=
  with_nodes s (alter (λ n, pin n (Some ex) (Some ey)) i (sim_nodes s)).

Definition dragended (active i : nat) (s : Simulation) (cache : Cache)
  : Simulation * Cache :=
  let s1 := if bool_decide (active = 0%nat) then sim_cool s else s in
  (s1, match sim_nodes s1 !! i with
       | Some n => <[nd_id n := entry_of n]> cache
       | None => cache
       end).

(** ** The view: refs, simulations and the effect (lines 6-12, 59-76, 170-173) *)

(** [sims] holds every simulation object the view has created, in order of
    creation; the refs and closures name them by position.  [cleanup] is
    the function the latest run of the effect returned, which stops that
    run's simulation; [svg] is the run whose circles, and with them its
    drag handlers, are in the SVG. *)
Record View := {
  nodePositionsRef : Cache;
  simulationRef : option nat;
  sims : list Simulation;
  cleanup : option nat;
  svg : option nat;
}.

Definition init : View :=
  {| nodePositionsRef := ∅; simulationRef := None; sims := [];
     cleanup := None; svg := None |}.

Definition stop_at (k : nat) (ss : list Simulation) : list Simulation :=
  alter sim_stop k ss.

(** How a run of the effect ends, and the view it leaves behind. *)
Inductive Outcome :=
  | Returned (v : View)
  | Thrown (v : View).

(** The body of the effect.  Both refs are set by the time an effect runs.
    With no nodes it returns at line 12: nothing is stopped, the SVG is
    not cleared and no cleanup is returned.  Otherwise it stops the
    simulation in [simulationRef], clears the SVG and builds the new
    simulation.  A link that names no node makes [d3.forceLink] throw at
    line 69: by then the old simulation is stopped, the SVG is empty and
    the simulation of line 68 is running, but line 76 is not reached, so
    that [simulationRef] still holds the old simulation, and no cleanup is
    returned. *)
Definition effect_outcome (p : Props) (w h : Z) (rng : Rng) (v : View) : Outcome :=
  match nodes p with
  | [] =>
      Returned {| nodePositionsRef := nodePositionsRef v;
                  simulationRef := simulationRef v; sims := sims v;
                  cleanup := None; svg := svg v |}
  | _ :: _ =>
      let nds := nodesData p w h (nodePositionsRef v) rng in
      let ss := match simulationRef v with
                | Some k => stop_at k (sims v)
                | None => sims v
                end in
      match resolve_links nds (linksData p) with
      | Some lks =>
          Returned {| nodePositionsRef := nodePositionsRef v;
                      simulationRef := Some (length ss);
                      sims := ss ++ [new_sim nds lks];
                      cleanup := Some (length ss);
                      svg := Some (length ss) |}
      | None =>
          Thrown {| nodePositionsRef := nodePositionsRef v;
                    simulationRef := simulationRef v;
                    sims := ss ++ [orphan_sim nds];
                    cleanup := None;
                    svg := None |}
      end
  end.

(** The view after a run of the effect that returned; [None]: it threw. *)
Definition effect (p : Props) (w h : Z) (rng : Rng) (v : View) : option View :=
  match effect_outcome p w h rng v with
  | Returned v' => Some v'
  | Thrown _ => None
  end.

(** React runs the cleanup of the previous run of an effect before the
    next run, and at unmount. *)
Definition run_cleanup (v : View) : View :=
  match cleanup v with
  | Some k =>
      {| nodePositionsRef := nodePositionsRef v;
         simulationRef := simulationRef v; sims := stop_at k (sims v);
         cleanup := None; svg := svg v |}
  | None => v
  end.

Definition render (p : Props) (w h : Z) (rng : Rng) (v : View) : option View :=
  effect p w h rng (run_cleanup v).

Definition unmount (v : View) : View :=
  let v1 := run_cleanup v in
  {| nodePositionsRef := nodePositionsRef v1;
     simulationRef := simulationRef v1; sims := sims v1;
     cleanup := None; svg := None |}.

Definition with_sim (v : View) (k : nat) (s : Simulation) (cache : Cache) : View :=
  {| nodePositionsRef := cache;
     simulationRef := simulationRef v; sims := <[k := s]> (sims v);
     cleanup := cleanup v; svg := svg v |}.

(** The timer of simulation [k] fires: step, "tick" callback (which only
    paints), and the "end" callback if the timer stopped. *)
Definition frame (phys : Physics) (k : nat) (v : View) : View :=
  match sims v !! k with
  | Some s =>
      if sim_running s then
        let s' := sim_step phys s in
        with_sim v k s'
          (if sim_running s' then nodePositionsRef v
           else on_end (sim_nodes s') (nodePositionsRef v))
      else v
  | None => v
  end.

Fixpoint remove_one (i : nat) (l : list nat) : list nat :=
  match l with
  | [] => []
  | j :: r => if bool_decide (i = j) then r else j :: remove_one i r
  end.

(** A gesture starts on circle [i] of the run in the SVG.  d3-drag passes
    the number of gestures already in progress as [event.active], then
    counts the new one. *)
Definition drag_start (i : nat) (v : View) : View :=
  match svg v with
  | Some k =>
      match sims v !! k with
      | Some s =>
          if bool_decide (i < length (sim_nodes s))%nat then
            let s1 := dragstarted (length (sim_gestures s)) i s in
            with_sim v k (with_gestures s1 (sim_gestures s ++ [i])) (nodePositionsRef v)
          else v
      | None => v
      end
  | None => v
  end.

(** The pointer of a gesture in progress on node [i] of run [k] moves.
    d3-drag listens on the window, so a gesture outlives the circles. *)
Definition drag_move (k i : nat) (ex ey : num) (v : View) : View :=
  match sims v !! k with
  | Some s =>
      if bool_decide (i ∈ sim_gestures s) then
        with_sim v k (dragged i ex ey s) (nodePositionsRef v)
      else v
  | None => v
  end.

(** A gesture in progress on node [i] of run [k] ends.  d3-drag first
    discounts it, then passes the number of gestures left as
    [event.active]. *)
Definition drag_end (k i : nat) (v : View) : View :=
  match sims v !! k with
  | Some s =>
      if bool_decide (i ∈ sim_gestures s) then
        let g := remove_one i (sim_gestures s) in
        let '(s1, cache) :=
          dragended (length g) i (with_gestures s g) (nodePositionsRef v) in
        with_sim v k s1 cache
      else v
  | None => v
  end.

Inductive Event :=
  | Render (p : Props) (w h : Z) (rng : Rng)
  | Frame (k : nat)
  | DragStart (i : nat)
  | Drag (k i : nat) (ex ey : num)
  | DragEnd (k i : nat).

Definition step (phys : Physics) (e : Event) (v : View) : option View :=
  match e with
  | Render p w h rng => render p w h rng v
  | Frame k => Some (frame phys k v)
  | DragStart i => Some (drag_start i v)
  | Drag k i ex ey => Some (drag_move k i ex ey v)
  | DragEnd k i => Some (drag_end k i v)
  end.

Fixpoint run (phys : Physics) (es : list Event) (v : View) : option View :=
  match es with
  | [] => Some v
  | e :: es' => v' ← step phys e v; run phys es' v'
  end.

(** ** Reading a view *)

Definition node_at (v : View) (k i : nat) : option Node :=
  s ← sims v !! k; sim_nodes s !! i.

Definition running (v : View) (k : nat) : Prop :=
  ∃ s, sims v !! k = Some s ∧ sim_running s = true.

(** Firings of the timer of simulation [k], one after the other. *)
Definition frames (phys : Physics) (k n : nat) (v : View) : View :=
  Nat.iter n (frame phys k) v.

(** ** The props as objects on the heap *)

(** To say that the props are not mutated, the snapshot has to be what the
    component receives: three references to arrays whose elements are
    references to objects that the parent still holds.  A heap is the list
    of the cells allocated so far, a reference is a position in it, and an
    object is a dictionary from field names to values. *)
Inductive value :=
  | VUndef
  | VNull
  | VNum (n : num)
  | VStr (s : string)
  | VRef (l : nat).

Inductive cell :=
  | CObj (fields : gmap string value)
  | CArr (elems : list value).

Abbreviation Heap := (list cell).

Record PropsRef := {
  nodes_ref : nat;
  links_ref : nat;
  codes_ref : nat;
}.

Definition arr_at (h : Heap) (l : nat) : option (list value) :=
  match h !! l with
  | Some (CArr a) => Some a
  | _ => None
  end.

Definition obj_at (h : Heap) (x : value) : option (gmap string value) :=
  match x with
  | VRef l =>
      match h !! l with
      | Some (CObj o) => Some o
      | _ => None
      end
  | _ => None
  end.

Definition get_str (o : gmap string value) (f : string) : option string :=
  match o !! f with
  | Some (VStr s) => Some s
  | _ => None
  end.

Definition get_num (o : gmap string value) (f : string) : option Q :=
  match o !! f with
  | Some (VNum (Fin q)) => Some q
  | _ => None
  end.

(** A node of the snapshot is [{ id, name }], a link [{ source, target,
    value }] with ids at both ends, an anchor a string. *)
Definition read_node (o : gmap string value) : option NodeIn :=
  i ← get_str o "id"; n ← get_str o "name";
  Some {| nin_id := i; nin_name := n |}.

Definition read_link (o : gmap string value) : option LinkIn :=
  src ← get_str o "source"; tgt ← get_str o "target"; w ← get_num o "value";
  Some {| lin_source := src; lin_target := tgt; lin_value := w |}.

Definition read_code (x : value) : option string :=
  match x with
  | VStr c => Some c
  | _ => None
  end.

Definition num_value (n : option num) : value := from_option VNum VNull n.

Definition type_value (t : option NodeType) : value :=
  match t with
  | Some my_stock => VStr "my-stock"
  | Some related => VStr "related"
  | Some other => VStr "other"
  | None => VUndef
  end.

(** The clone of the props node [d] as the classifier leaves it:
    [{ ...d, x, y, fx, fy }], then [type], [radius] and [color]. *)
Definition node_object (d : gmap string value) (n : Node) : gmap string value :=
  <["color" := from_option VStr VUndef (nd_color n)]>
  (<["radius" := from_option (λ r, VNum (Fin (inject_Z r))) VUndef (nd_radius n)]>
  (<["type" := type_value (nd_type n)]>
  (<["fy" := num_value (nd_fy n)]>
  (<["fx" := num_value (nd_fx n)]>
  (<["y" := VNum (nd_y n)]>
  (<["x" := VNum (nd_x n)]> d)))))).

(** Object and array literals allocate: the new cells go after the old. *)
Definition alloc_all (cs : list cell) (h : Heap) : list nat * Heap :=
  (seq (length h) (length cs), h ++ cs).

(** What a layout run holds on to: the clones of the nodes and of the
    links, and the arrays [nodesData] and [linksData]. *)
Record Run := {
  run_nodes : list nat;
  run_links : list nat;
  nodesData_ref : nat;
  linksData_ref : nat;
}.

(** The snapshot the three references stand for, with the objects of its
    nodes and links as they are on the heap. *)
Definition read_props (h : Heap) (r : PropsRef)
  : option (Props * list (gmap string value) * list (gmap string value)) :=
  na ← arr_at h (nodes_ref r);
  la ← arr_at h (links_ref r);
  ca ← arr_at h (codes_ref r);
  nobjs ← mapM (obj_at h) na;
  lobjs ← mapM (obj_at h) la;
  ds ← mapM read_node nobjs;
  ls ← mapM read_link lobjs;
  cs ← mapM read_code ca;
  Some ({| nodes := ds; links := ls; myStockCodes := cs |}, nobjs, lobjs).

(** Lines 18-57 on the heap: the clones of the nodes, the array
    [nodesData], the clones of the links, the array [linksData]. *)
Definition layout_heap (r : PropsRef) (w hh : Z) (cache : Cache) (rng : Rng)
    (h : Heap) : option (Run * Heap) :=
  '(p, nobjs, lobjs) ← read_props h r;
  let nds := nodesData p w hh cache rng in
  let '(nlocs, h1) := alloc_all (CObj <$> zip_with node_object nobjs nds) h in
  let '(narr, h2) := alloc_all [CArr (VRef <$> nlocs)] h1 in
  let '(llocs, h3) := alloc_all (CObj <$> lobjs) h2 in
  let '(larr, h4) := alloc_all [CArr (VRef <$> llocs)] h3 in
  Some ({| run_nodes := nlocs; run_links := llocs;
           nodesData_ref := length h1; linksData_ref := length h3 |}, h4).

(** Every later assignment of the run: to a field of a node of
    [nodesData] (d3's [x], [y], [vx], [vy] and [index], the drag handlers'
    [fx] and [fy]) or of a link of [linksData] ([source], [target] and
    [index], set by [d3.forceLink]). *)
Inductive Write :=
  | WNode (i : nat) (f : string) (x : value)
  | WLink (j : nat) (f : string) (x : value).

Definition set_field (f : string) (x : value) (c : cell) : cell :=
  match c with
  | CObj o => CObj (<[f := x]> o)
  | CArr a => CArr a
  end.

Definition write (run : Run) (h : Heap) (wr : Write) : Heap :=
  match wr with
  | WNode i f x =>
      match run_nodes run !! i with
      | Some l => alter (set_field f x) l h
      | None => h
      end
  | WLink j f x =>
      match run_links run !! j with
      | Some l => alter (set_field f x) l h
      | None => h
      end
  end.

(** ** The contracts of the specification *)

(** The contract of the classifier, in the words of the specification: a
    node is an anchor when its id is among the anchors, related when it is
    not and some link joins it, in either direction, to an anchor, and
    other when neither holds. *)
Definition linked_to_anchor (lks : list LinkIn) (anchors : list string) (nid : string) : Prop :=
  ∃ l, l ∈ lks ∧
    ((lin_source l = nid ∧ lin_target l ∈ anchors) ∨
     (lin_target l = nid ∧ lin_source l ∈ anchors)).

Inductive classified (lks : list LinkIn) (anchors : list string) (nid : string)
  : NodeType → Prop :=
  | is_anchor : nid ∈ anchors → classified lks anchors nid my_stock
  | is_related :
      nid ∉ anchors → linked_to_anchor lks anchors nid →
      classified lks anchors nid related
  | is_other :
      nid ∉ anchors → ¬ linked_to_anchor lks anchors nid →
      classified lks anchors nid other.

(** Anchor = 30, Related = 20, Other = 10. *)
Definition spec_radius (t : NodeType) : Z :=
  match t with
  | my_stock => 30
  | related => 20
  | other => 10
  end.

(** What a layout run leaves of a node once position and pin are set aside. *)
Definition style_of (n : Node) : string * option NodeType * option Z * option string :=
  (nd_id n, nd_type n, nd_radius n, nd_color n).

(** "Higher-weight edges pull harder and target a shorter rest distance." *)
Definition weight_drives_link_force : Prop :=
  ∀ l1 l2 : SimLink,
    (ln_value l1 < ln_value l2)%Q →
    (link_strength l1 < link_strength l2)%Q ∧
    (link_distance l2 < link_distance l1)%Q.

(** A link is dangling when one of its ends is the id of no node. *)
Definition dangling (p : Props) (l : LinkIn) : Prop :=
  lin_source l ∉ map nin_id (nodes p) ∨ lin_target l ∉ map nin_id (nodes p).

#[global] Instance dangling_dec p l : Decision (dangling p l).
Proof. unfold dangling. apply _. Defined.

(** A tick keeps the nodes in place in the array, leaves [id], [fx] and
    [fy] alone and puts a pinned coordinate on its pin. *)
Definition honours_pins (phys : Physics) : Prop :=
  ∀ a lks nds,
    Forall2 (λ n n',
        nd_id n' = nd_id n ∧ nd_fx n' = nd_fx n ∧ nd_fy n' = nd_fy n ∧
        (∀ x, nd_fx n = Some x → nd_x n' = x) ∧
        (∀ y, nd_fy n = Some y → nd_y n' = y))
      nds (phys a lks nds).

(** ** Invariants *)

(** Whatever is running, whatever owns the circles in the SVG and whatever
    the pending cleanup would stop is the simulation in [simulationRef]. *)
Record view_inv (v : View) : Prop := {
  inv_running : ∀ k, running v k → simulationRef v = Some k;
  inv_svg : ∀ k, svg v = Some k → simulationRef v = Some k;
  inv_cleanup : ∀ k, cleanup v = Some k → simulationRef v = Some k;
  inv_ref : ∀ k, simulationRef v = Some k → (k < length (sims v))%nat;
}.

(** The alpha target that goes with the gestures in progress. *)
Definition reheat_level (gestures : list nat) : Q :=
  match gestures with
  | [] => 0
  | _ :: _ => 1 # 10
  end.

(** [alpha] stays between 0 and its initial value, and [alphaTarget] is
    0.1 while a gesture is in progress and 0 otherwise. *)
Record sim_inv (s : Simulation) : Prop := {
  inv_alpha_lo : (0 <= sim_alpha s)%Q;
  inv_alpha_hi : (sim_alpha s <= alpha0)%Q;
  inv_target : sim_alphaTarget s = reheat_level (sim_gestures s);
}.

(** One cooling step on [alpha] with [alphaTarget = 0], in lowest terms. *)
Definition cool_step (a : Q) : Q := Qred (a * (49 # 50)).

(** The number of firings after which a simulation left alone has stopped. *)
Definition settle_bound : nat := 283.

(** ** Sample data *)

(** The scenario of the specification: anchor A, a link from A to B of
    weight 0.8, and C linked to nothing. *)
Definition demo : Props :=
  {| nodes := [ {| nin_id := "A"; nin_name := "Alpha" |};
                {| nin_id := "B"; nin_name := "Beta" |};
                {| nin_id := "C"; nin_name := "Gamma" |} ];
     links := [ {| lin_source := "A"; lin_target := "B"; lin_value := 8 # 10 |} ];
     myStockCodes := ["A"] |}.

(** The snapshot after B has left the graph. *)
Definition demo_without_B : Props :=
  {| nodes := [ {| nin_id := "A"; nin_name := "Alpha" |};
                {| nin_id := "C"; nin_name := "Gamma" |} ];
     links := [];
     myStockCodes := ["A"] |}.

(** A snapshot with a link to "Z", which is not a node. *)
Definition demo_dangling : Props :=
  {| nodes := [ {| nin_id := "A"; nin_name := "Alpha" |};
                {| nin_id := "B"; nin_name := "Beta" |} ];
     links := [ {| lin_source := "A"; lin_target := "B"; lin_value := 8 # 10 |};
                {| lin_source := "A"; lin_target := "Z"; lin_value := 5 # 10 |} ];
     myStockCodes := ["A"] |}.

(** The graph has lost all its nodes. *)
Definition demo_empty : Props :=
  {| nodes := []; links := []; myStockCodes := ["A"] |}.

(** A random stream that always draws [r]. *)
Definition draws (r : Q) : Rng := λ _, r.

(** The physics with every force switched off: a pinned coordinate snaps
    to its pin, a free one stays where it is. *)
Definition snap_to_pins : Physics := λ _ _ nds,
  map (λ n,
    {| nd_id := nd_id n; nd_name := nd_name n;
       nd_x := default (nd_x n) (nd_fx n); nd_y := default (nd_y n) (nd_fy n);
       nd_fx := nd_fx n; nd_fy := nd_fy n;
       nd_type := nd_type n; nd_radius := nd_radius n; nd_color := nd_color n;
       nd_vx := Some (Fin 0); nd_vy := Some (Fin 0) |}) nds.

(** The scenario of the specification, as the parent holds it. *)
Definition demo_heap : Heap :=
  [ CObj {[ "id" := VStr "A"; "name" := VStr "Alpha" ]};
    CObj {[ "id" := VStr "B"; "name" := VStr "Beta" ]};
    CObj {[ "id" := VStr "C"; "name" := VStr "Gamma" ]};
    CArr [VRef 0; VRef 1; VRef 2];
    CObj {[ "source" := VStr "A"; "target" := VStr "B"; "value" := VNum (Fin (8 # 10)) ]};
    CArr [VRef 4];
    CArr [VStr "A"] ].

Definition demo_ref : PropsRef :=
  {| nodes_ref := 3; links_ref := 5; codes_ref := 6 |}.

Definition mount : Event := Render demo 800 600 (draws (1 # 2)).

(** B is dragged to (200, 120) and released, with ticks in between. *)
Definition demo_session : list Event :=
  [mount; Frame 0; DragStart 1; Drag 0 1 (Fin 200) (Fin 120); Frame 0;
   DragEnd 0 1; Frame 0].

Definition demo_view : View :=
  default init (run snap_to_pins demo_session init).

(** The same session, stopped while B is still held. *)
Definition demo_dragging : View :=
  default init
    (run snap_to_pins [mount; Frame 0; DragStart 1; Drag 0 1 (Fin 200) (Fin 120)] init).

Definition demo_sim : Simulation :=
  default (new_sim [] []) (sims demo_view !! 0%nat).

(** What is left of the sample session when the next snapshot has a
    dangling link and [d3.forceLink] throws. *)
Definition demo_thrown : View :=
  match effect_outcome demo_dangling 800 600 (draws (1 # 2)) (run_cleanup demo_view) with
  | Returned v | Thrown v => v
  end.

Definition demo_layout : Run * Heap :=
  default ({| run_nodes := []; run_links := []; nodesData_ref := 0; linksData_ref := 0 |}, [])
    (layout_heap demo_ref 800 600 ∅ (draws (1 # 2)) demo_heap).

(** d3 gives B a position and resolves the ends of the link; the user
    drags B. *)
Definition demo_writes : list Write :=
  [ WNode 1 "x" (VNum (Fin 412)); WNode 1 "vx" (VNum (Fin 0));
    WLink 0 "source" (VRef 7); WLink 0 "target" (VRef 8);
    WNode 1 "fx" (VNum (Fin 200)); WNode 1 "fy" (VNum (Fin 120)) ].

(** ** More sample data *)

(** B as the sample session leaves it: pinned at (200, 120). *)
Definition demo_B : Node :=
  default (pin (styled (seed_node 0 0 ∅ (draws 0) {| nin_id := "B"; nin_name := "Beta" |} 0).1
                  other 10 "") None None)
    (node_at demo_view 0 1).

(** What follows the sample session: a tick, a refresh with other draws,
    and a gesture on A in the new run. *)
Definition demo_later : list Event :=
  [Frame 0; Render demo 800 600 (draws (1 # 10)); DragStart 0;
   Drag 1 0 (Fin 5) (Fin 7); Frame 1; DragEnd 1 0].

Definition demo_later_view : View :=
  default init (run snap_to_pins demo_later demo_view).

Definition demo_dragging_sim : Simulation :=
  default (new_sim [] []) (sims demo_dragging !! 0%nat).

Definition demo_dragging_B : Node :=
  default demo_B (sim_nodes demo_dragging_sim !! 1%nat).

(** The sample session, refreshed right after B is released. *)
Definition demo_refreshed : View :=
  default init (render demo 800 600 (draws (1 # 10)) (drag_end 0 1 demo_dragging)).

(** The first run with its [alpha] one tick away from [alphaMin]. *)
Definition demo_cooling_sim : Simulation :=
  {| sim_nodes := initialize_node <$> nodesData demo 800 600 ∅ (draws (9 # 10));
     sim_links := default [] (resolve_links (nodesData demo 800 600 ∅ (draws (9 # 10)))
                                (linksData demo));
     sim_alpha := 1 # 1000; sim_alphaTarget := 0;
     sim_running := true; sim_gestures := [] |}.

Definition demo_cooling : View :=
  {| nodePositionsRef := ∅; simulationRef := Some 0%nat;
     sims := [demo_cooling_sim]; cleanup := Some 0%nat; svg := Some 0%nat |}.

Definition demo_A : Node :=
  default demo_B (sim_nodes (sim_step snap_to_pins demo_cooling_sim) !! 0%nat).

Definition demo_settled : View :=
  default init (render demo 800 600 (draws (1 # 10)) (frame snap_to_pins 0 demo_cooling)).

(** ** Variations of a snapshot *)

(** The same link, drawn the other way round. *)
Definition flip_link (l : LinkIn) : LinkIn :=
  {| lin_source := lin_target l; lin_target := lin_source l;
     lin_value := lin_value l |}.

(** The snapshot with other links between the same nodes. *)
Definition with_links (p : Props) (ls : list LinkIn) : Props :=
  {| nodes := nodes p; links := ls; myStockCodes := myStockCodes p |}.

(** ** Kinds of events *)

(** A run of the effect on a snapshot without nodes, or no run at all. *)
Definition lays_out_nothing (e : Event) : Prop :=
  match e with
  | Render p _ _ _ => nodes p = []
  | _ => True
  end.

(** What a user does before the graph has loaded: wait, and poke at the
    empty canvas. *)
Definition demo_waiting : list Event :=
  [Render demo_empty 800 600 (draws 0); Frame 0; DragStart 1;
   Drag 0 1 (Fin 1) (Fin 2); DragEnd 0 1;
   Render demo_empty 640 480 (draws 0)].

(** The ids of the nodes an event lays out. *)
Definition laid_out (e : Event) : list string :=
  match e with
  | Render p _ _ _ => map nin_id (nodes p)
  | _ => []
  end.

(** Every id in the cache and every id of a node of a simulation is in [X]. *)
Definition ids_within (X : list string) (v : View) : Prop :=
  (∀ nid, is_Some (nodePositionsRef v !! nid) → nid ∈ X) ∧
  Forall (λ s, Forall (λ n, nd_id n ∈ X) (sim_nodes s)) (sims v).

(** Anything but the start of a gesture. *)
Definition starts_no_gesture (e : Event) : Prop :=
  match e with
  | DragStart _ => False
  | _ => True
  end.

(** No gesture is in progress and nothing is pinned, in the simulations
    or in the cache. *)
Definition unpinned (v : View) : Prop :=
  Forall (λ s, sim_gestures s = [] ∧
               Forall (λ n, nd_fx n = None ∧ nd_fy n = None) (sim_nodes s)) (sims v) ∧
  (∀ nid e, nodePositionsRef v !! nid = Some e → e_fx e = None ∧ e_fy e = None).

(** A session in which nobody touches the graph. *)
Definition demo_hands_off : list Event :=
  [mount; Frame 0; Frame 0; Render demo 640 480 (draws (1 # 10)); Frame 1;
   Drag 1 0 (Fin 5) (Fin 5); DragEnd 1 0].

Definition demo_hands_off_view : View :=
  default init (run snap_to_pins demo_hands_off init).

(** The node [d] has a cache entry whose coordinates [||] lets through. *)
Definition usable_entry (cache : Cache) (d : NodeIn) : Prop :=
  ∃ e, cache !! nin_id d = Some e ∧ truthy (e_x e) = true ∧ truthy (e_y e) = true.

(** A cache that knows all three nodes of the sample; B is pinned. *)
Definition demo_cache : Cache :=
  {[ "A" := {| e_x := Fin 410; e_y := Fin 290; e_fx := None; e_fy := None |};
     "B" := {| e_x := Fin 200; e_y := Fin 120;
               e_fx := Some (Fin 200); e_fy := Some (Fin 120) |};
     "C" := {| e_x := Fin (-15); e_y := Inf false; e_fx := None; e_fy := None |} ]}.

(** ** Held simulations and attached links *)

(** Simulation [k] of the view is running with a gesture in progress. *)
Definition held (v : View) (k : nat) : Prop :=
  ∃ s, sims v !! k = Some s ∧ sim_inv s ∧ sim_gestures s ≠ [] ∧
       sim_running s = true.

(** The simulation link [r] stands for the link [l] of the snapshot: both
    its ends are references to nodes of [nds] with the ids [l] names. *)
Definition attached (nds : list Node) (l : LinkIn) (r : SimLink) : Prop :=
  ∃ i j n m,
    ln_source r = ERef i ∧ ln_target r = ERef j ∧
    nds !! i = Some n ∧ nds !! j = Some m ∧
    nd_id n = lin_source l ∧ nd_id m = lin_target l.

(** Both ends of a painted line have both coordinates. *)
Definition line_drawn
    (ln : (option num * option num) * (option num * option num)) : Prop :=
  is_Some ln.1.1 ∧ is_Some ln.1.2 ∧ is_Some ln.2.1 ∧ is_Some ln.2.2.

(* ================================================================== *)
(** * Properties *)
(* ================================================================== *)

(** ** The effect, when it returns *)

Lemma effect_eq p w h rng v :
  effect p w h rng v =
  match nodes p with
  | [] =>
      Some {| nodePositionsRef := nodePositionsRef v;
              simulationRef := simulationRef v; sims := sims v;
              cleanup := None; svg := svg v |}
  | _ :: _ =>
      let nds := nodesData p w h (nodePositionsRef v) rng in
      let ss := match simulationRef v with
                | Some k => stop_at k (sims v)
                | None => sims v
                end in
      lks ← resolve_links nds (linksData p);
      Some {| nodePositionsRef := nodePositionsRef v;
              simulationRef := Some (length ss);
              sims := ss ++ [new_sim nds lks];
              cleanup := Some (length ss);
              svg := Some (length ss) |}
  end.
Proof.
  unfold effect, effect_outcome. destruct (nodes p); [done|]. simpl.
  by destruct (resolve_links _ _).
Qed.

(** ** Seeding keeps the nodes in order *)

Lemma seed_nodes_ids w h cache rng ds k :
  map nd_id (seed_nodes w h cache rng ds k).1 = map nin_id ds.
Proof.
  revert k. induction ds as [|d ds IH]; intros k; [done|].
  simpl. unfold seed_node.
  destruct (seed_coord rng (e_x <$> cache !! nin_id d) (centre w) k) as [x k1].
  destruct (seed_coord rng (e_y <$> cache !! nin_id d) (centre h) k1) as [y k2].
  specialize (IH k2). destruct (seed_nodes w h cache rng ds k2) as [ns k3].
  simpl in *. by rewrite IH.
Qed.

Lemma seed_nodes_unstyled w h cache rng ds k :
  Forall (λ n, nd_type n = None ∧ nd_radius n = None ∧ nd_color n = None)
    (seed_nodes w h cache rng ds k).1.
Proof.
  revert k. induction ds as [|d ds IH]; intros k; [by constructor|].
  simpl. unfold seed_node.
  destruct (seed_coord rng (e_x <$> cache !! nin_id d) (centre w) k) as [x k1].
  destruct (seed_coord rng (e_y <$> cache !! nin_id d) (centre h) k1) as [y k2].
  specialize (IH k2). destruct (seed_nodes w h cache rng ds k2) as [ns k3].
  simpl in *. by constructor.
Qed.

(** ** The classifier against its contract *)

Lemma includes_true codes s : includes codes s = true ↔ s ∈ codes.
Proof. unfold includes. by rewrite bool_decide_eq_true. Qed.

Lemma includes_false codes s : includes codes s = false ↔ s ∉ codes.
Proof. unfold includes. by rewrite bool_decide_eq_false. Qed.

(** On the clones of the snapshot's links, whose ends are still ids, only
    the first two disjuncts of [isRelated] can hold. *)
Lemma isRelated_clones codes nds lks nid :
  isRelated codes nds (map clone_link lks) nid = true ↔
  linked_to_anchor lks codes nid.
Proof.
  unfold isRelated, linked_to_anchor. rewrite existsb_exists. split.
  - intros (sl & Hin & Hsl). apply in_map_iff in Hin as (l & <- & Hin).
    exists l. split; [by apply list_elem_of_In|].
    simpl in Hsl. unfold ep_id_is in Hsl. simpl in Hsl.
    rewrite !orb_false_r in Hsl.
    apply orb_true_iff in Hsl as [H|H]; apply andb_true_iff in H as [H1 H2];
      apply bool_decide_eq_true in H1; apply includes_true in H2; auto.
  - intros (l & Hin & H). exists (clone_link l). split.
    + apply in_map. by apply list_elem_of_In.
    + simpl. unfold ep_id_is. simpl. rewrite !orb_false_r.
      apply orb_true_iff.
      destruct H as [[H1 H2]|[H1 H2]]; [left|right];
        apply andb_true_iff; split;
        (by apply bool_decide_eq_true) || (by apply includes_true).
Qed.

Lemma classify_id codes nds lks n : nd_id (classify codes nds lks n) = nd_id n.
Proof. unfold classify. by repeat case_match. Qed.

Lemma classify_contract codes nds lks n :
  ∃ t, nd_type (classify codes nds (map clone_link lks) n) = Some t ∧
       nd_radius (classify codes nds (map clone_link lks) n) = Some (spec_radius t) ∧
       classified lks codes (nd_id n) t.
Proof.
  unfold classify.
  destruct (includes codes (nd_id n)) eqn:Ha.
  - exists my_stock. repeat split. constructor. by apply includes_true.
  - apply includes_false in Ha.
    destruct (isRelated codes nds (map clone_link lks) (nd_id n)) eqn:Hr.
    + exists related. repeat split. constructor; [done|].
      by apply isRelated_clones in Hr.
    + exists other. repeat split. constructor; [done|].
      intros Hl. apply isRelated_clones with (nds := nds) in Hl. congruence.
Qed.

(** The three cases of the contract exclude one another. *)
Lemma classified_unique lks anchors nid t t' :
  classified lks anchors nid t → classified lks anchors nid t' → t = t'.
Proof. intros H H'. destruct H; destruct H'; done. Qed.

Lemma classified_no_anchor lks nid t : classified lks [] nid t → t = other.
Proof.
  intros H. destruct H as [H|_ (l & _ & [[_ H]|[_ H]])|]; [..|done];
    by apply elem_of_nil in H.
Qed.

(** The styling of a run depends on the snapshot alone. *)
Lemma classify_style codes nds nds' lks n n' :
  nd_id n = nd_id n' →
  style_of (classify codes nds (map clone_link lks) n) =
  style_of (classify codes nds' (map clone_link lks) n').
Proof.
  intros Hid. unfold classify. rewrite <- Hid.
  destruct (includes codes (nd_id n)); [by unfold style_of; simpl; rewrite Hid|].
  destruct (isRelated codes nds (map clone_link lks) (nd_id n)) eqn:Hr.
  - apply isRelated_clones in Hr. apply isRelated_clones with (nds := nds') in Hr.
    rewrite Hr. unfold style_of; simpl. by rewrite Hid.
  - destruct (isRelated codes nds' (map clone_link lks) (nd_id n)) eqn:Hr'.
    + apply isRelated_clones in Hr'. apply isRelated_clones with (nds := nds) in Hr'.
      congruence.
    + unfold style_of; simpl. by rewrite Hid.
Qed.

Lemma map_classify_style codes nds nds' lks l l' :
  map nd_id l = map nd_id l' →
  map style_of (map (classify codes nds (map clone_link lks)) l) =
  map style_of (map (classify codes nds' (map clone_link lks)) l').
Proof.
  revert l'. induction l as [|n l IH]; intros [|n' l'] Hid; try done.
  simpl in *. injection Hid as Hn Hl.
  f_equal; [by apply classify_style | by apply IH].
Qed.

Lemma nodesData_style p w h cache rng w' h' cache' rng' :
  map style_of (nodesData p w h cache rng) =
  map style_of (nodesData p w' h' cache' rng').
Proof.
  unfold nodesData, seeded, linksData. apply map_classify_style.
  by rewrite !seed_nodes_ids.
Qed.

Lemma map_classify_contract codes nds lks ds l :
  map nd_id l = map nin_id ds →
  Forall2 (λ d n,
      nd_id n = nin_id d ∧
      ∃ t, nd_type n = Some t ∧ nd_radius n = Some (spec_radius t) ∧
           classified lks codes (nin_id d) t)
    ds (map (classify codes nds (map clone_link lks)) l).
Proof.
  revert l. induction ds as [|d ds IH]; intros [|n l] Hids; try done.
  simpl in *. injection Hids as Hn Hl. constructor; [|by apply IH].
  split; [by rewrite classify_id|].
  destruct (classify_contract codes nds lks n) as (t & Ht & Hr & Hc).
  exists t. by rewrite <- Hn.
Qed.

Lemma nodesData_contract p w h cache rng :
  Forall2 (λ d n,
      nd_id n = nin_id d ∧
      ∃ t, nd_type n = Some t ∧ nd_radius n = Some (spec_radius t) ∧
           classified (links p) (myStockCodes p) (nin_id d) t)
    (nodes p) (nodesData p w h cache rng).
Proof.
  unfold nodesData, seeded, linksData. apply map_classify_contract.
  apply seed_nodes_ids.
Qed.

(** C1. In every layout run each node of the snapshot gets exactly one
    classification, the one the contract names (anchor when its id is
    among [myStockCodes]; related when it is not and a link joins it, in
    either direction, to such an id; other when neither holds), and the
    radius that goes with it (30, 20, 10, always positive).  With no
    anchors every node is other.  Classification and radius are the same
    whatever the cache, the canvas and the random draws are: they depend
    on the snapshot alone. *)
Theorem classification_correct (p : Props) (w h : Z) (cache : Cache) (rng : Rng) :
  Forall2 (λ d n,
      nd_id n = nin_id d ∧
      ∃ t, nd_type n = Some t ∧
           nd_radius n = Some (spec_radius t) ∧
           classified (links p) (myStockCodes p) (nin_id d) t ∧
           (∀ t', classified (links p) (myStockCodes p) (nin_id d) t' → t' = t) ∧
           (myStockCodes p = [] → t = other))
    (nodes p) (nodesData p w h cache rng)
  ∧ (spec_radius my_stock = 30 ∧ spec_radius related = 20 ∧ spec_radius other = 10)
  ∧ (∀ t, 0 < spec_radius t)
  ∧ (∀ w' h' cache' rng',
       map style_of (nodesData p w' h' cache' rng') =
       map style_of (nodesData p w h cache rng)).
Proof.
  split; [|split; [done|split]].
  - eapply Forall2_impl; [apply nodesData_contract|].
    intros d n (Hid & t & Ht & Hr & Hc). split; [done|].
    exists t. repeat split; try done.
    + intros t' Hc'. by apply (classified_unique _ _ _ _ _ Hc').
    + intros Hnil. rewrite Hnil in Hc. by apply classified_no_anchor in Hc.
  - by intros [].
  - intros. apply nodesData_style.
Qed.

(** ** Seeding against the cache *)

Lemma classify_position codes nds lks n :
  nd_x (classify codes nds lks n) = nd_x n ∧
  nd_y (classify codes nds lks n) = nd_y n ∧
  nd_fx (classify codes nds lks n) = nd_fx n ∧
  nd_fy (classify codes nds lks n) = nd_fy n.
Proof. unfold classify. by repeat case_match. Qed.

(** Every node of a run is the seed of its props node at some state of the
    random stream, then classified. *)
Lemma seed_nodes_each w h cache rng ds k :
  Forall2 (λ d n, ∃ j, n = (seed_node w h cache rng d j).1)
    ds (seed_nodes w h cache rng ds k).1.
Proof.
  revert k. induction ds as [|d ds IH]; intros k; [by constructor|].
  simpl. destruct (seed_node w h cache rng d k) as [n k1] eqn:Hn.
  specialize (IH k1). destruct (seed_nodes w h cache rng ds k1) as [ns k2].
  simpl in *. constructor; [|done]. exists k. by rewrite Hn.
Qed.

Lemma nodesData_each p w h cache rng :
  Forall2 (λ d n, ∃ j,
      let s := (seed_node w h cache rng d j).1 in
      nd_x n = nd_x s ∧ nd_y n = nd_y s ∧ nd_fx n = nd_fx s ∧ nd_fy n = nd_fy s)
    (nodes p) (nodesData p w h cache rng).
Proof.
  unfold nodesData, seeded. rewrite Forall2_fmap_r.
  eapply Forall2_impl; [apply seed_nodes_each|].
  intros d n [j ->]. exists j. apply classify_position.
Qed.

(** The seeding hands d3 no [NaN]: a coordinate is a cached number that
    [||] let through or a jitter, a pin is a cached pin that [||] let
    through, and [||] lets no [NaN] through.  So [initializeNodes] never
    takes its branch for a node without a position. *)
Lemma seed_coord_no_nan rng v c k : (seed_coord rng v c k).1 ≠ NaN.
Proof.
  destruct v as [a|]; simpl; [|done].
  destruct (truthy a) eqn:Ha; simpl; [|done]. by intros ->.
Qed.

Lemma seed_pin_no_nan v : seed_pin v ≠ Some NaN.
Proof.
  destruct v as [a|]; simpl; [|done].
  destruct (truthy a) eqn:Ha; [|done]. by intros [= ->].
Qed.

Lemma seeding_leaves_no_nan p w h cache rng :
  Forall (λ n, nd_x (initialize_node n) ≠ NaN ∧ nd_y (initialize_node n) ≠ NaN)
    (nodesData p w h cache rng).
Proof.
  apply Forall_lookup. intros j n Hn.
  destruct (Forall2_lookup_r _ _ _ _ _ (nodesData_each p w h cache rng) Hn)
    as (d & _ & j' & Hx & Hy & Hfx & Hfy).
  simpl. rewrite Hx, Hy, Hfx, Hfy. unfold seed_node.
  pose proof (seed_coord_no_nan rng (e_x <$> cache !! nin_id d) (centre w) j') as Nx.
  destruct (seed_coord rng (e_x <$> cache !! nin_id d) (centre w) j') as [x k1].
  pose proof (seed_coord_no_nan rng (e_y <$> cache !! nin_id d) (centre h) k1) as Ny.
  destruct (seed_coord rng (e_y <$> cache !! nin_id d) (centre h) k1) as [y k2].
  simpl in *.
  pose proof (seed_pin_no_nan (cache !! nin_id d ≫= e_fx)) as Nfx.
  pose proof (seed_pin_no_nan (cache !! nin_id d ≫= e_fy)) as Nfy.
  destruct (seed_pin (cache !! nin_id d ≫= e_fx)) as [fx|];
    destruct (seed_pin (cache !! nin_id d ≫= e_fy)) as [fy|]; simpl;
    split; congruence.
Qed.

Lemma seed_coord_cached rng a c k :
  truthy a = true → (seed_coord rng (Some a) c k).1 = a.
Proof. intros H. simpl. by rewrite H. Qed.

Lemma seed_coord_fresh rng c k :
  (seed_coord rng None c k).1 = jitter c (rng k).
Proof. done. Qed.

Lemma seed_pin_kept a : truthy a = true → seed_pin (Some a) = Some a.
Proof. intros H. simpl. by rewrite H. Qed.

(** A cached [0] (or [NaN]) is not restored: [||] takes it for a missing
    value, draws a fresh coordinate and drops the pin. *)
Lemma falsy_coord_redrawn rng a c k :
  truthy a = false → seed_coord rng (Some a) c k = (jitter c (rng k), S k).
Proof. intros H. simpl. by rewrite H. Qed.

Lemma falsy_pin_dropped a : truthy a = false → seed_pin (Some a) = None.
Proof. intros H. simpl. by rewrite H. Qed.

(** For a draw in [[0, 1)] the jitter lies in [[-50, 50)]. *)
Lemma jitter_term_range (r : Q) :
  (0 <= r)%Q → (r < 1)%Q → (- (50) <= jitter_term r)%Q ∧ (jitter_term r < 50)%Q.
Proof. intros H0 H1. unfold jitter_term. split; lra. Qed.

(** A draw in [[0, 1)] lands within 50 of the centre. *)
Lemma jitter_range (c r : Q) :
  (0 <= r)%Q → (r < 1)%Q →
  ∃ q, jitter c r = Fin q ∧ (c - 50 <= q)%Q ∧ (q <= c + 50)%Q.
Proof.
  intros H0 H1. destruct (jitter_term_range r H0 H1).
  eexists. split; [reflexivity|]. split; lra.
Qed.

(** The same bounds hold of the coordinate as line 24 computes it, in
    doubles: rounding to nearest is monotone, and it is exact on the six
    numbers below, which are doubles on any canvas a browser can show.
    Rounded, the coordinate can reach [c + 50] itself. *)
Section Rounding.
Variables (fl : Q → Q) (c : Q).
Hypothesis fl_mono : ∀ a b, (a <= b)%Q → (fl a <= fl b)%Q.
Hypothesis fl_half : (fl (1 # 2) == 1 # 2)%Q.
Hypothesis fl_minus_half : (fl (- (1 # 2)) == - (1 # 2))%Q.
Hypothesis fl_50 : (fl 50 == 50)%Q.
Hypothesis fl_minus_50 : (fl (- (50)) == - (50))%Q.
Hypothesis fl_low : (fl (c - 50) == c - 50)%Q.
Hypothesis fl_high : (fl (c + 50) == c + 50)%Q.

Lemma rounded_jitter_range (r : Q) :
  (0 <= r)%Q → (r < 1)%Q →
  (c - 50 <= rounded_jitter fl c r)%Q ∧ (rounded_jitter fl c r <= c + 50)%Q.
Proof.
  intros H0 H1. unfold rounded_jitter.
  pose proof (fl_mono (- (1 # 2)) (r - (1 # 2)) ltac:(lra)) as Ha.
  pose proof (fl_mono (r - (1 # 2)) (1 # 2) ltac:(lra)) as Hb.
  pose proof (fl_mono (- (50)) (fl (r - (1 # 2)) * 100) ltac:(lra)) as Hc.
  pose proof (fl_mono (fl (r - (1 # 2)) * 100) 50 ltac:(lra)) as Hd.
  pose proof (fl_mono (c - 50) (c + fl (fl (r - (1 # 2)) * 100)) ltac:(lra)) as He.
  pose proof (fl_mono (c + fl (fl (r - (1 # 2)) * 100)) (c + 50) ltac:(lra)) as Hf.
  split; lra.
Qed.
End Rounding.

Lemma centre_wide (w : Z) : 100 < w → (50 < centre w)%Q.
Proof.
  intros H. unfold centre.
  assert (100 < inject_Z w)%Q as Hw.
  { change 100%Q with (inject_Z 100). rewrite <- Zlt_Qlt. lia. }
  apply Qlt_shift_div_l; lra.
Qed.

Lemma Qeq_bool_false (a b : Q) : ¬ (a == b)%Q → Qeq_bool a b = false.
Proof.
  intros H. destruct (Qeq_bool a b) eqn:E; [|done].
  by apply Qeq_bool_iff in E.
Qed.

(** On a canvas more than 100 wide the seeded [x] is not [0]. *)
Lemma jitter_nonzero (w : Z) (r : Q) :
  100 < w → (0 <= r)%Q → truthy (jitter (centre w) r) = true.
Proof.
  intros Hw H0. apply centre_wide in Hw. simpl.
  rewrite Qeq_bool_false; [done|]. unfold jitter_term. intros E. lra.
Qed.

Lemma seed_node_cached w h cache rng d j e :
  cache !! nin_id d = Some e →
  let s := (seed_node w h cache rng d j).1 in
  (truthy (e_x e) = true → nd_x s = e_x e) ∧
  (truthy (e_y e) = true → nd_y s = e_y e) ∧
  nd_fx s = seed_pin (e_fx e) ∧
  nd_fy s = seed_pin (e_fy e).
Proof.
  intros He. unfold seed_node. rewrite He. simpl.
  destruct (truthy (e_x e)) eqn:Hx; destruct (truthy (e_y e)) eqn:Hy; simpl;
    repeat split; done.
Qed.

Lemma seed_node_fresh w h cache rng d j :
  cache !! nin_id d = None →
  let s := (seed_node w h cache rng d j).1 in
  nd_x s = jitter (centre w) (rng j) ∧
  nd_y s = jitter (centre h) (rng (S j)) ∧
  nd_fx s = None ∧ nd_fy s = None.
Proof. intros He. unfold seed_node. rewrite He. done. Qed.

(** C2, as the code has it.  In every layout run a node whose id has a
    cache entry takes each cached coordinate that is truthy (neither 0 nor
    NaN) exactly, and each cached pin that is truthy exactly; an entry
    without a pin seeds no pin.  A node whose id has no cache entry is seeded, unpinned, at
    the canvas centre plus a jitter drawn for each axis; the jitter lies
    in [[-50, 50)], the coordinate within 50 of the centre, both ends
    included (in doubles the sum can round to the centre plus 50), and
    away from the origin on a canvas more than 100 wide or high.  None of
    this depends on the random stream for a node with truthy cached
    coordinates, so a re-run with the same cache seeds it where it was. *)
Theorem seeding_policy (p : Props) (w h : Z) (cache : Cache) (rng : Rng) :
  Forall2 (λ d n,
      match cache !! nin_id d with
      | Some e =>
          (truthy (e_x e) = true → nd_x n = e_x e) ∧
          (truthy (e_y e) = true → nd_y n = e_y e) ∧
          (∀ a, e_fx e = Some a → truthy a = true → nd_fx n = Some a) ∧
          (∀ a, e_fy e = Some a → truthy a = true → nd_fy n = Some a) ∧
          (e_fx e = None → nd_fx n = None) ∧
          (e_fy e = None → nd_fy n = None)
      | None =>
          ∃ j, nd_x n = jitter (centre w) (rng j) ∧
               nd_y n = jitter (centre h) (rng (S j)) ∧
               nd_fx n = None ∧ nd_fy n = None
      end)
    (nodes p) (nodesData p w h cache rng)
  ∧ (∀ c r, (0 <= r)%Q → (r < 1)%Q →
       (- (50) <= jitter_term r)%Q ∧ (jitter_term r < 50)%Q ∧
       ∃ q, jitter c r = Fin q ∧ (c - 50 <= q)%Q ∧ (q <= c + 50)%Q)
  ∧ (∀ extent r, 100 < extent → (0 <= r)%Q →
       truthy (jitter (centre extent) r) = true).
Proof.
  split; [|split].
  - eapply Forall2_impl; [apply nodesData_each|].
    intros d n (j & Hx & Hy & Hfx & Hfy).
    destruct (cache !! nin_id d) as [e|] eqn:He.
    + destruct (seed_node_cached w h cache rng d j e He) as (Cx & Cy & Cfx & Cfy).
      rewrite Hx, Hy, Hfx, Hfy, Cfx, Cfy.
      repeat split; try done.
      * intros a -> Ha. by apply seed_pin_kept.
      * intros a -> Ha. by apply seed_pin_kept.
      * by intros ->.
      * by intros ->.
    + destruct (seed_node_fresh w h cache rng d j He) as (Cx & Cy & Cfx & Cfy).
      exists j. by rewrite Hx, Hy, Hfx, Hfy.
  - intros c r H0 H1. destruct (jitter_term_range r H0 H1).
    split; [done|]. split; [done|]. by apply jitter_range.
  - apply jitter_nonzero.
Qed.

(** Against C2 as stated.  The snapshot is laid out on an 800 by 600
    canvas and the simulation ticks twice; nothing is cached.  The effect
    runs again on the same snapshot: node A, which sat at x = 440, is
    seeded at x = 360.  On a 100 by 100 canvas a draw of 0 on both axes
    seeds a node at the origin. *)
Lemma rerun_reseeds_uncached_nodes :
  let first := Render demo 800 600 (draws (9 # 10)) in
  let again := Render demo 800 600 (draws (1 # 10)) in
  (v ← run snap_to_pins [first; Frame 0; Frame 0] init;
   Some (nodePositionsRef v)) = Some ∅ ∧
  (v ← run snap_to_pins [first; Frame 0; Frame 0] init;
   n ← node_at v 0 0; Some (num_eqb (nd_x n) (Fin 440))) = Some true ∧
  (v ← run snap_to_pins [first; Frame 0; Frame 0; again] init;
   n ← node_at v 1 0; Some (num_eqb (nd_x n) (Fin 360))) = Some true ∧
  (n ← nodesData demo 100 100 ∅ (draws 0) !! 0%nat;
   Some (num_eqb (nd_x n) (Fin 0) && num_eqb (nd_y n) (Fin 0))) = Some true.
Proof. vm_compute. done. Qed.

(** ** Pins across a refresh *)

(** C3 on the code, where it fails.  B is dragged to the point (0, 120)
    and released: it is pinned there and the pin is written to the cache.
    The effect then runs again on the same snapshot, as it does whenever
    the parent re-renders: B comes back with [fx = null], free to move
    along x.  Released at (200, 120) instead, it comes back pinned. *)
Theorem pin_at_zero_lost_on_refresh :
  let mount := Render demo 800 600 (draws (1 # 2)) in
  let to_edge := [mount; DragStart 1; Drag 0 1 (Fin 0) (Fin 120); DragEnd 0 1] in
  let inside := [mount; DragStart 1; Drag 0 1 (Fin 200) (Fin 120); DragEnd 0 1] in
  (v ← run snap_to_pins to_edge init; n ← node_at v 0 1;
   Some (nd_fx n, nd_fy n)) = Some (Some (Fin 0), Some (Fin 120)) ∧
  (v ← run snap_to_pins to_edge init; e ← nodePositionsRef v !! "B";
   Some (e_fx e, e_fy e)) = Some (Some (Fin 0), Some (Fin 120)) ∧
  (v ← run snap_to_pins (to_edge ++ [mount]) init; n ← node_at v 1 1;
   Some (nd_fx n, nd_fy n)) = Some (None, Some (Fin 120)) ∧
  (v ← run snap_to_pins (inside ++ [mount]) init; n ← node_at v 1 1;
   Some (nd_fx n, nd_fy n)) = Some (Some (Fin 200), Some (Fin 120)).
Proof. vm_compute. done. Qed.

(** ** The link force *)

(** C4, as the code has it.  Every link is given the strength 0.3 and the
    rest distance 100: two links differ in neither, whatever their
    weights. *)
Theorem link_force_is_uniform (l1 l2 : SimLink) :
  link_strength l1 = (3 # 10)%Q ∧ link_distance l1 = 100%Q ∧
  link_strength l1 = link_strength l2 ∧
  link_distance l1 = link_distance l2.
Proof. done. Qed.

(** Against C4 as stated: the link of weight 0.8 pulls no harder, and to
    no shorter a distance, than a link of weight 0.2. *)
Lemma link_force_ignores_weight : ¬ weight_drives_link_force.
Proof.
  intros H.
  destruct (H {| ln_source := EId "A"; ln_target := EId "C"; ln_value := 2 # 10 |}
              {| ln_source := EId "A"; ln_target := EId "B"; ln_value := 8 # 10 |})
    as [Hs _]; [done|].
  unfold link_strength in Hs. lra.
Qed.

(** ** Writes to the position cache *)

Lemma on_end_cons m r (c : Cache) :
  on_end (m :: r) c = on_end r (<[nd_id m := entry_of m]> c).
Proof. done. Qed.

Lemma on_end_other nds (c : Cache) (nid : string) :
  nid ∉ map nd_id nds → on_end nds c !! nid = c !! nid.
Proof.
  revert c. induction nds as [|m r IH]; intros c Hn; [done|].
  simpl in Hn. apply not_elem_of_cons in Hn as [Hm Hr].
  rewrite on_end_cons, IH by done. by rewrite lookup_insert_ne.
Qed.

Lemma on_end_written nds (c : Cache) (n : Node) :
  n ∈ nds →
  ∃ n', n' ∈ nds ∧ nd_id n' = nd_id n ∧
        on_end nds c !! nd_id n = Some (entry_of n').
Proof.
  revert c n. induction nds as [|m r IH]; intros c n Hin; [by apply elem_of_nil in Hin|].
  rewrite on_end_cons.
  destruct (decide (nd_id n ∈ map nd_id r)) as [Hr|Hr].
  - apply list_elem_of_fmap in Hr as (n0 & Hid & Hn0).
    destruct (IH (<[nd_id m := entry_of m]> c) n0 Hn0) as (n' & Hn' & Hid' & Hl).
    exists n'. split; [by right|]. split; [congruence|]. by rewrite Hid.
  - apply elem_of_cons in Hin as [->|Hin].
    + exists m. split; [by left|]. split; [done|].
      rewrite (on_end_other r _ _ Hr). by rewrite lookup_insert_eq.
    + exfalso. apply Hr. apply list_elem_of_fmap. by exists n.
Qed.

Lemma on_end_keeps nds (c : Cache) (nid : string) :
  is_Some (c !! nid) → is_Some (on_end nds c !! nid).
Proof.
  revert c. induction nds as [|m r IH]; intros c Hc; [done|].
  rewrite on_end_cons. apply IH.
  destruct (decide (nd_id m = nid)) as [->|Hne].
  - rewrite lookup_insert_eq. by eexists.
  - by rewrite lookup_insert_ne.
Qed.

Lemma run_cleanup_cache v : nodePositionsRef (run_cleanup v) = nodePositionsRef v.
Proof. unfold run_cleanup. by destruct (cleanup v). Qed.

Lemma effect_cache p w h rng v v' :
  effect p w h rng v = Some v' → nodePositionsRef v' = nodePositionsRef v.
Proof.
  rewrite effect_eq; cbv zeta. destruct (nodes p); [by intros [= <-]|].
  intros H. apply bind_Some in H as (lks & _ & [= <-]). done.
Qed.

Lemma render_cache p w h rng v v' :
  render p w h rng v = Some v' → nodePositionsRef v' = nodePositionsRef v.
Proof.
  unfold render. intros H. apply effect_cache in H. by rewrite run_cleanup_cache in H.
Qed.

Lemma drag_start_cache i v : nodePositionsRef (drag_start i v) = nodePositionsRef v.
Proof. unfold drag_start. by repeat case_match. Qed.

Lemma drag_move_cache k i ex ey v :
  nodePositionsRef (drag_move k i ex ey v) = nodePositionsRef v.
Proof. unfold drag_move. by repeat case_match. Qed.

(** What a firing of the timer does to the cache: nothing, unless it is
    the firing that stops the simulation. *)
Lemma frame_cache phys k v :
  nodePositionsRef (frame phys k v) =
  match sims v !! k with
  | Some s =>
      if sim_running s && negb (sim_running (sim_step phys s))
      then on_end (sim_nodes (sim_step phys s)) (nodePositionsRef v)
      else nodePositionsRef v
  | None => nodePositionsRef v
  end.
Proof.
  unfold frame. destruct (sims v !! k) as [s|]; [|done].
  destruct (sim_running s); [|done].
  generalize (sim_step phys s) as s'. intros s'. simpl.
  by destruct (sim_running s').
Qed.

Lemma drag_end_cache k i v :
  nodePositionsRef (drag_end k i v) =
  match sims v !! k with
  | Some s =>
      if bool_decide (i ∈ sim_gestures s) then
        match sim_nodes s !! i with
        | Some n => <[nd_id n := entry_of n]> (nodePositionsRef v)
        | None => nodePositionsRef v
        end
      else nodePositionsRef v
  | None => nodePositionsRef v
  end.
Proof.
  unfold drag_end. destruct (sims v !! k) as [s|]; [|done].
  destruct (bool_decide (i ∈ sim_gestures s)); [|done].
  unfold dragended. simpl.
  destruct (bool_decide (length (remove_one i (sim_gestures s)) = 0%nat)); simpl;
    by destruct (sim_nodes s !! i).
Qed.

Lemma insert_keeps (c : Cache) (k nid : string) (e : Entry) :
  is_Some (c !! nid) → is_Some (<[k := e]> c !! nid).
Proof.
  intros H. destruct (decide (k = nid)) as [->|Hne].
  - rewrite lookup_insert_eq. by eexists.
  - by rewrite lookup_insert_ne.
Qed.

(** C5, as the code has it.  The cache is written in two places: by the
    firing of the timer that stops a simulation, for every node of that
    simulation, and by the end of a drag gesture, for the dragged node.
    A firing that leaves the simulation running, the start of a gesture,
    a pointer move and a run of the effect leave it as it is.  No event
    removes an entry: an id that was cached stays cached, whether or not
    the latest snapshot still has it. *)
Theorem cache_written_at_end_and_release
    (phys : Physics) (e : Event) (v v' : View) :
  step phys e v = Some v' →
  (∀ nid, is_Some (nodePositionsRef v !! nid) → is_Some (nodePositionsRef v' !! nid)) ∧
  match e with
  | Render _ _ _ _ | DragStart _ | Drag _ _ _ _ =>
      nodePositionsRef v' = nodePositionsRef v
  | Frame k =>
      match sims v !! k with
      | Some s =>
          if sim_running s && negb (sim_running (sim_step phys s)) then
            nodePositionsRef v' =
              on_end (sim_nodes (sim_step phys s)) (nodePositionsRef v) ∧
            ∀ n, n ∈ sim_nodes (sim_step phys s) →
              ∃ n', n' ∈ sim_nodes (sim_step phys s) ∧ nd_id n' = nd_id n ∧
                    nodePositionsRef v' !! nd_id n = Some (entry_of n')
          else nodePositionsRef v' = nodePositionsRef v
      | None => nodePositionsRef v' = nodePositionsRef v
      end
  | DragEnd k i =>
      match sims v !! k with
      | Some s =>
          if bool_decide (i ∈ sim_gestures s) then
            match sim_nodes s !! i with
            | Some n =>
                nodePositionsRef v' = <[nd_id n := entry_of n]> (nodePositionsRef v)
            | None => nodePositionsRef v' = nodePositionsRef v
            end
          else nodePositionsRef v' = nodePositionsRef v
      | None => nodePositionsRef v' = nodePositionsRef v
      end
  end.
Proof.
  intros H. destruct e as [p w h rng|k|i|k i ex ey|k i]; simpl in H.
  - apply render_cache in H. by rewrite H.
  - injection H as <-. rewrite frame_cache.
    destruct (sims v !! k) as [s|]; [|done].
    destruct (sim_running s && negb (sim_running (sim_step phys s))); [|done].
    split; [intros nid; apply on_end_keeps|].
    split; [done|]. intros n Hn. by apply on_end_written.
  - injection H as <-. by rewrite drag_start_cache.
  - injection H as <-. by rewrite drag_move_cache.
  - injection H as <-. rewrite drag_end_cache.
    destruct (sims v !! k) as [s|]; [|done].
    destruct (bool_decide (i ∈ sim_gestures s)); [|done].
    destruct (sim_nodes s !! i) as [n|]; [|done].
    split; [intros nid; apply insert_keeps|done].
Qed.

(** Against C5 as stated.  After two ticks of the first run the cache is
    still empty; a pointer move on B leaves B uncached; and B, cached by
    the end of a gesture, is still cached after a snapshot without B has
    been laid out. *)
Lemma cache_not_written_on_tick_nor_pruned :
  let mount := Render demo 800 600 (draws (1 # 2)) in
  (v ← run snap_to_pins [mount; Frame 0; Frame 0] init;
   Some (nodePositionsRef v)) = Some ∅ ∧
  (v ← run snap_to_pins [mount; DragStart 1; Drag 0 1 (Fin 10) (Fin 20)] init;
   Some (nodePositionsRef v !! "B")) = Some None ∧
  (v ← run snap_to_pins
         [mount; DragStart 1; Drag 0 1 (Fin 10) (Fin 20); DragEnd 0 1;
          Render demo_without_B 800 600 (draws (1 # 2))] init;
   Some (e_fx <$> nodePositionsRef v !! "B")) = Some (Some (Some (Fin 10))).
Proof. vm_compute. done. Qed.

(** ** One simulation at a time *)

Lemma running_stop_at k j ss s :
  stop_at k ss !! j = Some s → sim_running s = true →
  j ≠ k ∧ ss !! j = Some s.
Proof.
  unfold stop_at. intros Hl Hr.
  destruct (decide (j = k)) as [->|Hne].
  - rewrite list_lookup_alter_eq in Hl.
    destruct (ss !! k); simpl in Hl; [|done]. injection Hl as <-. done.
  - rewrite list_lookup_alter_ne in Hl by done. done.
Qed.

Lemma stop_at_length k ss : length (stop_at k ss) = length ss.
Proof. apply length_alter. Qed.

Lemma view_inv_init : view_inv init.
Proof. split; try done. intros k (s & Hs & _). done. Qed.

Lemma view_inv_cleanup v : view_inv v → view_inv (run_cleanup v).
Proof.
  intros Hinv. unfold run_cleanup.
  destruct (cleanup v) as [c|] eqn:Hc; [|done].
  destruct Hinv as [I1 I2 I3 I4]. split; simpl; try done.
  - intros k (s & Hs & Hr). destruct (running_stop_at _ _ _ _ Hs Hr) as [_ Hk].
    apply I1. by exists s.
  - intros k Hk. rewrite stop_at_length. by apply I4.
Qed.

(** After the cleanup nothing that the cleanup names is running. *)
Lemma cleanup_stops v k :
  view_inv v → cleanup v = Some k → ∀ j, ¬ running (run_cleanup v) j.
Proof.
  intros [I1 I2 I3 I4] Hc j (s & Hs & Hr). unfold run_cleanup in Hs.
  rewrite Hc in Hs. simpl in Hs.
  destruct (running_stop_at _ _ _ _ Hs Hr) as [Hne Hj].
  assert (simulationRef v = Some j) as Hj' by (apply I1; by exists s).
  rewrite (I3 _ Hc) in Hj'. congruence.
Qed.

(** Lines 59-62: once the simulation in the ref is stopped, nothing runs. *)
Lemma ref_stopped v :
  view_inv v →
  Forall (λ s, sim_running s = false)
    (match simulationRef v with
     | Some k => stop_at k (sims v)
     | None => sims v
     end).
Proof.
  intros [I1 I2 I3 I4]. apply Forall_lookup. intros j s Hs.
  destruct (sim_running s) eqn:Hr; [exfalso|done].
  destruct (simulationRef v) as [k|] eqn:Hk.
  - destruct (running_stop_at _ _ _ _ Hs Hr) as [Hne Hj].
    assert (Some k = Some j) as [= ->] by (apply I1; by exists s). done.
  - assert (None = Some j) by (apply I1; by exists s). done.
Qed.

(** What a layout run leaves: the old simulations, all stopped, and the
    new one after them, in the ref, in the SVG and in the cleanup. *)
Lemma effect_layout p w h rng v v' :
  view_inv v → nodes p ≠ [] → effect p w h rng v = Some v' →
  ∃ ss lks,
    sims v' = ss ++ [new_sim (nodesData p w h (nodePositionsRef v) rng) lks] ∧
    length ss = length (sims v) ∧
    Forall (λ s, sim_running s = false) ss ∧
    resolve_links (nodesData p w h (nodePositionsRef v) rng) (linksData p) = Some lks ∧
    simulationRef v' = Some (length ss) ∧
    cleanup v' = Some (length ss) ∧
    svg v' = Some (length ss).
Proof.
  intros Hinv Hne He. rewrite effect_eq in He; cbv zeta in He.
  destruct (nodes p) as [|d ds] eqn:Hn; [done|].
  apply bind_Some in He as (lks & Hl & [= <-]).
  eexists _, lks. simpl. repeat split; try done.
  - destruct (simulationRef v); [apply stop_at_length|done].
  - by apply ref_stopped.
Qed.

Lemma view_inv_effect p w h rng v v' :
  view_inv v → cleanup v = None → effect p w h rng v = Some v' → view_inv v'.
Proof.
  intros Hinv Hc He. destruct (nodes p) as [|d ds] eqn:Hn.
  - rewrite effect_eq in He; cbv zeta in He. rewrite Hn in He. injection He as <-.
    destruct Hinv as [I1 I2 I3 I4]. split; simpl; done.
  - destruct (effect_layout p w h rng v v' Hinv) as
      (ss & lks & Hs & Hlen & Hst & _ & Hr & Hcl & Hsv); [by rewrite Hn|done|].
    split.
    + intros k (s & Hk & Hrun). rewrite Hs in Hk.
      apply lookup_app_Some in Hk as [Hk|[Hge Hk]].
      * rewrite Forall_lookup in Hst. rewrite (Hst _ _ Hk) in Hrun. done.
      * apply list_lookup_singleton_Some in Hk as [Hk _].
        rewrite Hr. f_equal. lia.
    + intros k Hk. congruence.
    + intros k Hk. congruence.
    + intros k Hk. rewrite Hr in Hk. injection Hk as <-.
      rewrite Hs, length_app. simpl. lia.
Qed.

Lemma run_cleanup_clears v : cleanup (run_cleanup v) = None.
Proof. unfold run_cleanup. by destruct (cleanup v) eqn:E. Qed.

Lemma view_inv_render p w h rng v v' :
  view_inv v → render p w h rng v = Some v' → view_inv v'.
Proof.
  intros Hinv. apply view_inv_effect; [by apply view_inv_cleanup|].
  apply run_cleanup_clears.
Qed.

Lemma view_inv_with_sim v k s0 s c :
  view_inv v → sims v !! k = Some s0 →
  (sim_running s = true → simulationRef v = Some k) →
  view_inv (with_sim v k s c).
Proof.
  intros [I1 I2 I3 I4] Hk Hs. split; simpl; try done.
  - intros j (s' & Hj & Hr). simpl in Hj. destruct (decide (j = k)) as [->|Hne].
    + rewrite list_lookup_insert_eq in Hj by (by eapply lookup_lt_Some).
      injection Hj as <-. by apply Hs.
    + rewrite list_lookup_insert_ne in Hj by done. apply I1. by exists s'.
  - intros j Hj. rewrite length_insert. by apply I4.
Qed.

Lemma view_inv_frame phys k v : view_inv v → view_inv (frame phys k v).
Proof.
  intros Hinv. unfold frame.
  destruct (sims v !! k) as [s|] eqn:Hk; [|done].
  destruct (sim_running s) eqn:Hr; [|done].
  eapply view_inv_with_sim; [done..|].
  intros _. apply (inv_running v Hinv). by exists s.
Qed.

Lemma view_inv_drag_start i v : view_inv v → view_inv (drag_start i v).
Proof.
  intros Hinv. unfold drag_start.
  destruct (svg v) as [k|] eqn:Hsvg; [|done].
  destruct (sims v !! k) as [s|] eqn:Hk; [|done].
  case_bool_decide; [|done].
  eapply view_inv_with_sim; [done..|].
  intros _. by apply (inv_svg v Hinv).
Qed.

Lemma view_inv_drag_move k i ex ey v : view_inv v → view_inv (drag_move k i ex ey v).
Proof.
  intros Hinv. unfold drag_move.
  destruct (sims v !! k) as [s|] eqn:Hk; [|done].
  case_bool_decide; [|done].
  eapply view_inv_with_sim; [done..|].
  simpl. intros Hr. apply (inv_running v Hinv). by exists s.
Qed.

Lemma view_inv_drag_end k i v : view_inv v → view_inv (drag_end k i v).
Proof.
  intros Hinv. unfold drag_end.
  destruct (sims v !! k) as [s|] eqn:Hk; [|done].
  case_bool_decide; [|done].
  unfold dragended. simpl.
  eapply view_inv_with_sim; [done..|].
  intros Hr. apply (inv_running v Hinv). exists s. split; [done|].
  by destruct (bool_decide (length (remove_one i (sim_gestures s)) = 0%nat)).
Qed.

Lemma view_inv_step phys e v v' :
  view_inv v → step phys e v = Some v' → view_inv v'.
Proof.
  intros Hinv H. destruct e; simpl in H.
  - by eapply view_inv_render.
  - injection H as <-. by apply view_inv_frame.
  - injection H as <-. by apply view_inv_drag_start.
  - injection H as <-. by apply view_inv_drag_move.
  - injection H as <-. by apply view_inv_drag_end.
Qed.

Lemma view_inv_run phys es v v' :
  view_inv v → run phys es v = Some v' → view_inv v'.
Proof.
  revert v. induction es as [|e es IH]; intros v Hinv H; simpl in H.
  - by injection H as <-.
  - apply bind_Some in H as (v1 & H1 & H2).
    eapply IH; [|done]. by eapply view_inv_step.
Qed.

(** What a run of the effect leaves behind when [d3.forceLink] throws:
    the earlier simulations, all stopped, and after them the simulation of
    line 68, which no ref and no cleanup holds. *)
Lemma effect_thrown p w h rng v v' :
  view_inv v → effect_outcome p w h rng v = Thrown v' →
  ∃ ss,
    sims v' = ss ++ [orphan_sim (nodesData p w h (nodePositionsRef v) rng)] ∧
    length ss = length (sims v) ∧
    Forall (λ s, sim_running s = false) ss ∧
    simulationRef v' = simulationRef v ∧ cleanup v' = None ∧ svg v' = None.
Proof.
  intros Hinv He. unfold effect_outcome in He.
  destruct (nodes p); [done|]. cbv zeta in He.
  destruct (resolve_links _ _); [done|]. injection He as <-. simpl.
  eexists. split; [done|]. split.
  { destruct (simulationRef v); [apply stop_at_length|done]. }
  split; [by apply ref_stopped|done].
Qed.

(** X1.  Stop before start.  In every state the view can reach without a
    run of the effect throwing, at most one simulation is running, and it
    is the one in [simulationRef]; a layout run appends its simulation to
    simulations that are all stopped, so that the new one is the only one
    running when it starts; and tearing the view down while the cleanup of
    a layout run is pending leaves nothing running.  A run of the effect
    in which [d3.forceLink] throws is the exception: the simulation of
    line 68 is then the only one running, but [simulationRef] does not
    hold it and no cleanup is pending, so that it is still running after
    the view is torn down. *)
Theorem stop_before_start (phys : Physics) (es : list Event) (v : View) :
  run phys es init = Some v →
  (∀ j k, running v j → running v k → j = k) ∧
  (∀ k, running v k → simulationRef v = Some k) ∧
  (∀ p w h rng v',
     nodes p ≠ [] → render p w h rng v = Some v' →
     ∃ ss s,
       sims v' = ss ++ [s] ∧ length ss = length (sims v) ∧
       Forall (λ s0, sim_running s0 = false) ss ∧
       sim_running s = true ∧
       ∀ k, running v' k ↔ k = length ss) ∧
  (∀ k, cleanup v = Some k → ∀ j, ¬ running (unmount v) j) ∧
  (∀ p w h rng v',
     effect_outcome p w h rng (run_cleanup v) = Thrown v' →
     (∀ k, running v' k ↔ k = length (sims v)) ∧
     simulationRef v' ≠ Some (length (sims v)) ∧
     cleanup v' = None ∧
     running (unmount v') (length (sims v))).
Proof.
  intros Hrun.
  assert (view_inv v) as Hinv by (eapply view_inv_run; [apply view_inv_init|done]).
  assert (length (sims (run_cleanup v)) = length (sims v)) as Hlenc.
  { unfold run_cleanup. destruct (cleanup v); [apply stop_at_length|done]. }
  split; [|split; [|split; [|split]]].
  - intros j k Hj Hk. apply (inv_running v Hinv) in Hj, Hk. congruence.
  - apply (inv_running v Hinv).
  - intros p w h rng v' Hne Hr. unfold render in Hr.
    destruct (effect_layout p w h rng _ v' (view_inv_cleanup v Hinv) Hne Hr)
      as (ss & lks & Hs & Hlen & Hst & _ & Href & _ & _).
    eexists ss, _. split; [done|].
    split; [by rewrite Hlen|].
    split; [done|]. split; [done|].
    intros k. split.
    + intros (s & Hk & Hrs). rewrite Hs in Hk.
      apply lookup_app_Some in Hk as [Hk|[Hge Hk]].
      * rewrite Forall_lookup in Hst. rewrite (Hst _ _ Hk) in Hrs. done.
      * apply list_lookup_singleton_Some in Hk as [Hk _]. lia.
    + intros ->. eexists. rewrite Hs. split.
      * rewrite lookup_app_r by lia. by rewrite Nat.sub_diag.
      * done.
  - intros k Hc j Hj. eapply (cleanup_stops v k Hinv Hc j).
    destruct Hj as (s & Hs & Hr). by exists s.
  - intros p w h rng v' He.
    destruct (effect_thrown p w h rng _ v' (view_inv_cleanup v Hinv) He)
      as (ss & Hs & Hlen & Hst & Href & Hcl & _).
    rewrite Hlenc in Hlen.
    assert (∀ k, running v' k ↔ k = length (sims v)) as Hone.
    { intros k. split.
      - intros (s & Hk & Hrs). rewrite Hs in Hk.
        apply lookup_app_Some in Hk as [Hk|[Hge Hk]].
        + rewrite Forall_lookup in Hst. rewrite (Hst _ _ Hk) in Hrs. done.
        + apply list_lookup_singleton_Some in Hk as [Hk _]. lia.
      - intros ->. eexists. rewrite Hs. split.
        + rewrite lookup_app_r by lia. by rewrite Hlen, Nat.sub_diag.
        + done. }
    split; [done|]. split; [|split; [done|]].
    + rewrite Href. intros Hk.
      apply (inv_ref _ (view_inv_cleanup v Hinv)) in Hk. lia.
    + assert (sims (unmount v') = sims v') as Hu.
      { unfold unmount, run_cleanup. by rewrite Hcl. }
      destruct (proj2 (Hone (length (sims v))) eq_refl) as (s & Hk & Hrs).
      exists s. by rewrite Hu.
Qed.

(** C6 on the code, where it fails.  The graph is laid out; the next
    snapshot has no nodes, so the effect returns at line 12, before the
    SVG is cleared and without returning a cleanup.  A gesture on the
    circle of B, which is still in the SVG, restarts the simulation that
    the previous cleanup had stopped.  Tearing the view down now runs no
    cleanup: the simulation is still running afterwards. *)
Theorem teardown_misses_restarted_simulation :
  (v ← run snap_to_pins [mount; Render demo_empty 800 600 (draws (1 # 2))] init;
   s ← sims v !! 0%nat;
   Some (cleanup v, svg v, sim_running s)) = Some (None, Some 0%nat, false) ∧
  (v ← run snap_to_pins
         [mount; Render demo_empty 800 600 (draws (1 # 2)); DragStart 1] init;
   s ← sims (unmount v) !! 0%nat;
   Some (cleanup v, sim_running s)) = Some (None, true).
Proof. vm_compute. done. Qed.

(** ** Links that name no node *)

Lemma nodesData_ids p w h cache rng :
  map nd_id (nodesData p w h cache rng) = map nin_id (nodes p).
Proof.
  unfold nodesData, seeded. rewrite <- (seed_nodes_ids w h cache rng (nodes p) 0).
  rewrite map_map. apply map_ext. intros n. apply classify_id.
Qed.

Lemma node_by_id_None nds s i :
  node_by_id nds s i = None ↔ s ∉ map nd_id nds.
Proof.
  revert i. induction nds as [|n r IH]; intros i; simpl.
  - split; [intros _; apply not_elem_of_nil|done].
  - rewrite not_elem_of_cons. destruct (node_by_id r s (S i)) eqn:Hr.
    + split; [done|]. intros [_ Hn]. apply (proj2 (IH (S i))) in Hn. congruence.
    + apply IH in Hr. case_bool_decide; split; try done; try (intros [? _]; congruence).
Qed.

Lemma resolve_clone_is_Some nds l :
  is_Some (resolve_link nds (clone_link l)) ↔
  lin_source l ∈ map nd_id nds ∧ lin_target l ∈ map nd_id nds.
Proof.
  unfold resolve_link, clone_link. simpl.
  destruct (node_by_id nds (lin_source l) 0) as [a|] eqn:Ha;
    destruct (node_by_id nds (lin_target l) 0) as [b|] eqn:Hb; simpl.
  - split; [intros _|by eexists].
    split; apply dec_stable; intros Hn; apply node_by_id_None with (i := 0%nat) in Hn;
      congruence.
  - apply node_by_id_None in Hb. split; [by intros []|]. by intros [_ ?].
  - apply node_by_id_None in Ha. split; [by intros []|]. by intros [? _].
  - apply node_by_id_None in Ha. split; [by intros []|]. by intros [? _].
Qed.

Lemma resolve_links_is_Some p w h cache rng :
  is_Some (resolve_links (nodesData p w h cache rng) (linksData p)) ↔
  Forall (λ l, ¬ dangling p l) (links p).
Proof.
  unfold resolve_links, linksData. rewrite mapM_is_Some, Forall_fmap.
  apply Forall_iff. intros l. simpl.
  rewrite resolve_clone_is_Some, nodesData_ids. unfold dangling. split.
  - intros [Hs Ht] [H|H]; done.
  - intros H. split; apply dec_stable; intros Hn; apply H; auto.
Qed.

(** C8, as the code has it.  Every link of the snapshot is cloned and
    handed to the link force, dangling or not: none is dropped and nothing
    is counted.  A layout run goes through exactly when no link is
    dangling, and then simulates all the links of the snapshot; with a
    dangling link [d3.forceLink] throws and the run is aborted. *)
Theorem dangling_link_aborts_layout
    (p : Props) (w h : Z) (rng : Rng) (v : View) :
  linksData p = map clone_link (links p) ∧
  length (linksData p) = length (links p) ∧
  (render p w h rng v = None ↔
     nodes p ≠ [] ∧ ∃ l, l ∈ links p ∧ dangling p l) ∧
  (∀ v', nodes p ≠ [] → render p w h rng v = Some v' →
     ∃ ss s, sims v' = ss ++ [s] ∧ length (sim_links s) = length (links p)).
Proof.
  split; [done|]. split; [unfold linksData; by rewrite length_map|]. split.
  - unfold render; rewrite effect_eq; cbv zeta. destruct (nodes p) as [|d ds] eqn:Hn.
    + split; [done|]. by intros [? _].
    + rewrite <- Hn.
      pose proof (resolve_links_is_Some p w h (nodePositionsRef (run_cleanup v)) rng) as Hres.
      destruct (resolve_links _ _) as [lks|] eqn:Hl; simpl.
      * split; [done|]. intros [_ (l & Hin & Hd)].
        assert (Forall (λ l, ¬ dangling p l) (links p)) as Hall by (apply Hres; by eexists).
        rewrite Forall_forall in Hall. exfalso. by apply (Hall l).
      * split; [|done]. intros _. split; [by rewrite Hn|].
        destruct (decide (Exists (dangling p) (links p))) as [He|He].
        { apply Exists_exists in He as (l & Hin & Hd). by exists l. }
        assert (is_Some (None : option (list SimLink))) as [? ?]; [|done].
        apply Hres. apply Forall_forall. intros l Hin Hd. apply He.
        apply Exists_exists. by exists l.
  - intros v' Hne Hr. unfold render in Hr; rewrite effect_eq in Hr; cbv zeta in Hr.
    destruct (nodes p) as [|d ds] eqn:Hn; [done|].
    apply bind_Some in Hr as (lks & Hl & [= <-]). simpl.
    eexists _, _. split; [done|]. simpl.
    unfold resolve_links in Hl. apply length_mapM in Hl.
    rewrite <- Hl. unfold linksData. by rewrite length_map.
Qed.

(** Against C8 as stated: with the link from A to "Z" in the snapshot the
    layout run is aborted; the link is among those handed to the link
    force, which are as many as the snapshot has. *)
Lemma dangling_link_is_kept_and_fatal :
  render demo_dangling 800 600 (draws (1 # 2)) init = None ∧
  linksData demo_dangling !! 1%nat =
    Some {| ln_source := EId "A"; ln_target := EId "Z"; ln_value := 5 # 10 |} ∧
  length (linksData demo_dangling) = 2%nat.
Proof. vm_compute. done. Qed.

(** ** Reheating by dragging *)

Lemma sim_inv_new nds lks : sim_inv (new_sim nds lks).
Proof. split; simpl; [done|apply Qle_refl|done]. Qed.

Lemma sim_inv_stop s : sim_inv s → sim_inv (sim_stop s).
Proof. intros [? ? ?]. by split. Qed.

Lemma sim_inv_step phys s : sim_inv s → sim_inv (sim_step phys s).
Proof.
  intros [Hlo Hhi Ht]. split; simpl; [| |done]; unfold next_alpha, alphaDecay;
    rewrite Ht; unfold alpha0 in *; destruct (sim_gestures s); simpl; lra.
Qed.

Lemma sim_inv_dragstarted i s :
  sim_inv s →
  sim_inv (with_gestures (dragstarted (length (sim_gestures s)) i s)
             (sim_gestures s ++ [i])).
Proof.
  intros [Hlo Hhi Ht]. unfold dragstarted.
  destruct (sim_gestures s) as [|j g] eqn:Hg; simpl; split; simpl; done.
Qed.

Lemma sim_inv_dragged i ex ey s : sim_inv s → sim_inv (dragged i ex ey s).
Proof. intros [? ? ?]. by split. Qed.

Lemma remove_one_nil i g : i ∈ g → remove_one i g = [] → g = [i].
Proof.
  destruct g as [|j g]; [by intros ?%elem_of_nil|]. simpl.
  case_bool_decide as Hij; [by intros _ ->; subst|done].
Qed.

Lemma sim_inv_dragended i s c :
  sim_inv s → i ∈ sim_gestures s →
  sim_inv (dragended (length (remove_one i (sim_gestures s))) i
             (with_gestures s (remove_one i (sim_gestures s))) c).1.
Proof.
  intros [Hlo Hhi Ht] Hin. unfold dragended. simpl.
  destruct (remove_one i (sim_gestures s)) as [|j g] eqn:Hg; simpl; split; simpl; try done.
  rewrite Ht. destruct (sim_gestures s); [by apply elem_of_nil in Hin|done].
Qed.

Lemma sims_inv_with_sim v k s c :
  Forall sim_inv (sims v) → sim_inv s → Forall sim_inv (sims (with_sim v k s c)).
Proof.
  intros Hall Hs. simpl. apply Forall_lookup. intros j s' Hj.
  destruct (decide (j = k)) as [->|Hne].
  - destruct (decide (k < length (sims v))%nat).
    + rewrite list_lookup_insert_eq in Hj by done. by injection Hj as <-.
    + rewrite list_insert_ge in Hj by lia. by eapply Forall_lookup_1.
  - rewrite list_lookup_insert_ne in Hj by done. by eapply Forall_lookup_1.
Qed.

Lemma sims_inv_step phys e v v' :
  Forall sim_inv (sims v) → step phys e v = Some v' → Forall sim_inv (sims v').
Proof.
  intros Hall H. destruct e as [p w h rng|k|i|k i ex ey|k i]; simpl in H.
  - assert (∀ j ss, Forall sim_inv ss → Forall sim_inv (stop_at j ss)) as Hstop.
    { intros j ss Hss. unfold stop_at. apply Forall_alter; [done|].
      intros s' _. apply sim_inv_stop. }
    assert (Forall sim_inv (sims (run_cleanup v))) as Hall1.
    { unfold run_cleanup. destruct (cleanup v); [by apply Hstop|done]. }
    unfold render in H; rewrite effect_eq in H; cbv zeta in H. destruct (nodes p); [by injection H as <-|].
    apply bind_Some in H as (lks & _ & [= <-]). simpl.
    apply Forall_app. split.
    + destruct (simulationRef (run_cleanup v)); [by apply Hstop|done].
    + apply Forall_singleton, sim_inv_new.
  - injection H as <-. unfold frame.
    destruct (sims v !! k) as [s|] eqn:Hk; [|done].
    destruct (sim_running s); [|done].
    apply sims_inv_with_sim; [done|]. apply sim_inv_step.
    by eapply Forall_lookup_1.
  - injection H as <-. unfold drag_start.
    destruct (svg v) as [k|]; [|done].
    destruct (sims v !! k) as [s|] eqn:Hk; [|done].
    case_bool_decide; [|done].
    apply sims_inv_with_sim; [done|]. apply sim_inv_dragstarted.
    by eapply Forall_lookup_1.
  - injection H as <-. unfold drag_move.
    destruct (sims v !! k) as [s|] eqn:Hk; [|done].
    case_bool_decide; [|done].
    apply sims_inv_with_sim; [done|]. apply sim_inv_dragged.
    by eapply Forall_lookup_1.
  - injection H as <-. unfold drag_end.
    destruct (sims v !! k) as [s|] eqn:Hk; [|done].
    case_bool_decide as Hin; [|done].
    pose proof (sim_inv_dragended i s (nodePositionsRef v)
                  (Forall_lookup_1 _ _ _ _ Hall Hk) Hin) as Hs.
    destruct (dragended _ _ _ _) as [s1 c1]. by apply sims_inv_with_sim.
Qed.

Lemma sims_inv_run phys es v v' :
  Forall sim_inv (sims v) → run phys es v = Some v' → Forall sim_inv (sims v').
Proof.
  revert v. induction es as [|e es IH]; intros v Hall H; simpl in H.
  - by injection H as <-.
  - apply bind_Some in H as (v1 & H1 & H2).
    eapply IH; [|done]. by eapply sims_inv_step.
Qed.

Lemma run_frames phys k n v :
  run phys (replicate n (Frame k)) v = Some (frames phys k n v).
Proof.
  unfold frames. revert v. induction n as [|n IH]; intros v; [done|].
  simpl replicate. simpl run. rewrite IH. by rewrite Nat.iter_succ_r.
Qed.

Lemma cool_step_mono a b : (a <= b)%Q → (cool_step a <= cool_step b)%Q.
Proof. intros H. unfold cool_step. rewrite !Qred_correct. lra. Qed.

Lemma settle_bound_reached :
  (Nat.iter settle_bound cool_step alpha0 < alphaMin)%Q.
Proof. vm_compute. done. Qed.

(** With no gesture in progress, [alpha] after [n] firings is at most [n]
    cooling steps below where it started, and a simulation that is still
    running has not fallen below [alphaMin]. *)
Lemma frames_cool phys k n v s b :
  sims v !! k = Some s → sim_alphaTarget s = 0%Q →
  (0 <= sim_alpha s)%Q → (sim_alpha s <= b)%Q →
  ∃ s', sims (frames phys k n v) !! k = Some s' ∧
        sim_alphaTarget s' = 0%Q ∧ (0 <= sim_alpha s')%Q ∧
        (sim_running s' = true →
           (sim_alpha s' <= Nat.iter n cool_step b)%Q ∧
           (n ≠ 0%nat → (alphaMin <= sim_alpha s')%Q)).
Proof.
  intros Hk Ht Hlo Hhi. induction n as [|n IH].
  - exists s. simpl. repeat split; done.
  - destruct IH as (s1 & Hk1 & Ht1 & Hlo1 & Hrun1).
    unfold frames in *. simpl Nat.iter. unfold frame at 1. rewrite Hk1.
    destruct (sim_running s1) eqn:Hr1.
    + destruct (Hrun1 eq_refl) as [Hb _].
      exists (sim_step phys s1). split.
      { simpl. apply list_lookup_insert_eq. by eapply lookup_lt_Some. }
      assert (sim_alpha (sim_step phys s1) == sim_alpha s1 * (49 # 50))%Q as Ha.
      { simpl. unfold next_alpha, alphaDecay. rewrite Ht1. ring. }
      split; [done|]. split. { rewrite Ha. clear - Hlo1. lra. }
      intros Hr. split.
      * rewrite Ha.
        change (Nat.iter (S n) cool_step b) with (cool_step (Nat.iter n cool_step b)).
        apply Qle_trans with (cool_step (sim_alpha s1)); [|by apply cool_step_mono].
        unfold cool_step. rewrite Qred_correct. apply Qle_refl.
      * intros _. simpl in Hr. unfold Qlt_bool in Hr.
        rewrite negb_involutive in Hr. by apply Qle_bool_iff in Hr.
    + exists s1. rewrite Hk1. repeat split; try done; congruence.
Qed.

(** C10.  In every state the view can reach, the alpha target of each
    simulation is 0.1 while a gesture is in progress on it and 0
    otherwise.  A gesture that starts alone raises the target to 0.1 and
    restarts the timer; one that starts while another is in progress
    changes neither the target, nor alpha, nor the timer.  A gesture that
    ends resets the target to 0 when it was the last and leaves it at 0.1
    otherwise.  A simulation with no gesture in progress stops within 283
    firings of its timer. *)
Theorem reheat_is_temporary (phys : Physics) (es : list Event) (v : View) :
  run phys es init = Some v →
  Forall (λ s, sim_alphaTarget s = reheat_level (sim_gestures s)) (sims v) ∧
  (∀ i k s,
     svg v = Some k → sims v !! k = Some s → (i < length (sim_nodes s))%nat →
     ∃ s', sims (drag_start i v) !! k = Some s' ∧
           sim_gestures s' = sim_gestures s ++ [i] ∧
           match sim_gestures s with
           | [] => sim_alphaTarget s' = (1 # 10)%Q ∧ sim_running s' = true
           | _ :: _ =>
               sim_alphaTarget s' = (1 # 10)%Q ∧
               sim_alphaTarget s' = sim_alphaTarget s ∧
               sim_alpha s' = sim_alpha s ∧
               sim_running s' = sim_running s
           end) ∧
  (∀ i k s,
     sims v !! k = Some s → i ∈ sim_gestures s →
     ∃ s', sims (drag_end k i v) !! k = Some s' ∧
           sim_gestures s' = remove_one i (sim_gestures s) ∧
           sim_running s' = sim_running s ∧
           match sim_gestures s' with
           | [] => sim_alphaTarget s' = 0%Q
           | _ :: _ => sim_alphaTarget s' = (1 # 10)%Q
           end) ∧
  (∀ k s,
     sims v !! k = Some s → sim_gestures s = [] →
     run phys (replicate settle_bound (Frame k)) v =
       Some (frames phys k settle_bound v) ∧
     ¬ running (frames phys k settle_bound v) k).
Proof.
  intros Hrun.
  assert (Forall sim_inv (sims v)) as Hall.
  { eapply sims_inv_run; [|done]. by constructor. }
  split; [|split; [|split]].
  - eapply Forall_impl; [done|]. by intros s [].
  - intros i k s Hsvg Hk Hi.
    pose proof (sim_inv_dragstarted i s (Forall_lookup_1 _ _ _ _ Hall Hk)) as [_ _ Ht'].
    destruct (Forall_lookup_1 _ _ _ _ Hall Hk) as [_ _ Ht].
    unfold drag_start. rewrite Hsvg, Hk, bool_decide_eq_true_2 by done.
    eexists. split.
    { simpl. apply list_lookup_insert_eq. by eapply lookup_lt_Some. }
    split; [done|].
    unfold dragstarted. destruct (sim_gestures s) as [|j g]; simpl; [done|].
    by rewrite Ht.
  - intros i k s Hk Hin.
    pose proof (sim_inv_dragended i s (nodePositionsRef v)
                  (Forall_lookup_1 _ _ _ _ Hall Hk) Hin) as [_ _ Ht'].
    unfold drag_end. rewrite Hk, bool_decide_eq_true_2 by done.
    unfold dragended in *. simpl in *.
    eexists. split.
    { apply list_lookup_insert_eq. by eapply lookup_lt_Some. }
    destruct (remove_one i (sim_gestures s)) as [|j g]; simpl in *; by rewrite ?Ht'.
  - intros k s Hk Hg. split; [apply run_frames|].
    destruct (Forall_lookup_1 _ _ _ _ Hall Hk) as [Hlo Hhi Ht].
    rewrite Hg in Ht. simpl in Ht.
    destruct (frames_cool phys k settle_bound v s alpha0 Hk Ht Hlo Hhi)
      as (s' & Hk' & _ & _ & Hr').
    intros (s'' & Hk'' & Hr''). rewrite Hk' in Hk''. injection Hk'' as <-.
    destruct (Hr' Hr'') as [Hb Hm]. pose proof settle_bound_reached.
    specialize (Hm ltac:(done)). lra.
Qed.

(** ** The props on the heap *)

Lemma write_old run h wr (n : nat) :
  Forall (λ l, n ≤ l)%nat (run_nodes run) →
  Forall (λ l, n ≤ l)%nat (run_links run) →
  ∀ l, (l < n)%nat → write run h wr !! l = h !! l.
Proof.
  intros Hn Hl l Hlt. destruct wr as [i f x|j f x]; simpl.
  - destruct (run_nodes run !! i) as [l'|] eqn:Hi; [|done].
    apply list_lookup_alter_ne. eapply Forall_lookup_1 in Hn; [|done]. simpl in Hn. lia.
  - destruct (run_links run !! j) as [l'|] eqn:Hj; [|done].
    apply list_lookup_alter_ne. eapply Forall_lookup_1 in Hl; [|done]. simpl in Hl. lia.
Qed.

Lemma writes_old run ws h (n : nat) :
  Forall (λ l, n ≤ l)%nat (run_nodes run) →
  Forall (λ l, n ≤ l)%nat (run_links run) →
  ∀ l, (l < n)%nat → foldl (write run) h ws !! l = h !! l.
Proof.
  intros Hn Hl l Hlt. revert h. induction ws as [|wr ws IH]; intros h; [done|].
  simpl. rewrite IH. by eapply write_old.
Qed.

Lemma seq_ge (a n : nat) : Forall (λ l, a ≤ l)%nat (seq a n).
Proof. apply Forall_forall. intros l Hl. apply elem_of_seq in Hl. lia. Qed.

(** A layout run allocates and does nothing else: the heap it leaves is
    the heap it found followed by the clones, and the clones are new. *)
Lemma layout_heap_extends r w hh cache rng h run h' :
  layout_heap r w hh cache rng h = Some (run, h') →
  (∃ cs, h' = h ++ cs) ∧
  Forall (λ l, length h ≤ l)%nat (run_nodes run) ∧
  Forall (λ l, length h ≤ l)%nat (run_links run).
Proof.
  unfold layout_heap. intros H.
  apply bind_Some in H as ([[p nobjs] lobjs] & _ & H).
  unfold alloc_all in H. injection H as <- <-. simpl. split; [|split].
  - eexists. rewrite <- !app_assoc. reflexivity.
  - apply seq_ge.
  - eapply Forall_impl; [apply seq_ge|]. intros l. simpl.
    rewrite !length_app. lia.
Qed.

(** A layout run goes through on every heap that holds a snapshot. *)
Lemma layout_heap_runs r w hh cache rng h :
  is_Some (read_props h r) → is_Some (layout_heap r w hh cache rng h).
Proof.
  intros [[[p nobjs] lobjs] Hp]. unfold layout_heap. rewrite Hp. simpl. by eexists.
Qed.

(** The objects of a run are copies: the clone of a node has the fields of
    the props node, overridden by what seeding and classification set; the
    clone of a link has the fields of the props link. *)
Lemma layout_heap_clones r w hh cache rng h run h' p nobjs lobjs :
  read_props h r = Some (p, nobjs, lobjs) →
  layout_heap r w hh cache rng h = Some (run, h') →
  (∀ i o n, nobjs !! i = Some o → nodesData p w hh cache rng !! i = Some n →
     ∃ l, run_nodes run !! i = Some l ∧ h' !! l = Some (CObj (node_object o n))) ∧
  (∀ j o, lobjs !! j = Some o →
     ∃ l, run_links run !! j = Some l ∧ h' !! l = Some (CObj o)).
Proof.
  intros Hp H. unfold layout_heap in H. rewrite Hp in H. simpl in H.
  unfold alloc_all in H. injection H as <- <-. simpl. split.
  - intros i o n Ho Hn.
    assert ((CObj <$> zip_with node_object nobjs (nodesData p w hh cache rng)) !! i
            = Some (CObj (node_object o n))) as Hc.
    { by rewrite list_lookup_fmap, lookup_zip_with, Ho, Hn. }
    exists (length h + i)%nat. split.
    + apply lookup_seq. split; [done|]. by eapply lookup_lt_Some.
    + rewrite <- !app_assoc. rewrite lookup_app_r by lia.
      replace (length h + i - length h)%nat with i by lia.
      by apply lookup_app_l_Some.
  - intros j o Ho.
    assert ((CObj <$> lobjs) !! j = Some (CObj o)) as Hc
      by (by rewrite list_lookup_fmap, Ho).
    eexists. split.
    + apply lookup_seq. split; [done|]. by eapply lookup_lt_Some.
    + apply lookup_app_l_Some. rewrite lookup_app_r by lia.
      by rewrite Nat.add_comm, Nat.add_sub.
Qed.

Example demo_heap_holds_demo :
  fst <$> (fst <$> read_props demo_heap demo_ref) = Some demo.
Proof. vm_compute. done. Qed.

(** C9.  A layout run, and every assignment the run, d3 and the drag
    handlers make afterwards, leave every cell that was on the heap before
    the run as it was: the three arrays of the props and the objects in
    them are not mutated.  The objects the run works on are new cells,
    copies of the props nodes (with position, pin and styling set) and of
    the props links. *)
Theorem props_never_mutated
    (r : PropsRef) (w hh : Z) (cache : Cache) (rng : Rng)
    (h h' : Heap) (run : Run) (ws : list Write) :
  layout_heap r w hh cache rng h = Some (run, h') →
  (∀ l c, h !! l = Some c → foldl (write run) h' ws !! l = Some c) ∧
  arr_at (foldl (write run) h' ws) (nodes_ref r) = arr_at h (nodes_ref r) ∧
  arr_at (foldl (write run) h' ws) (links_ref r) = arr_at h (links_ref r) ∧
  arr_at (foldl (write run) h' ws) (codes_ref r) = arr_at h (codes_ref r) ∧
  (∀ l, l ∈ run_nodes run ++ run_links run → h !! l = None) ∧
  (∃ p nobjs lobjs,
     read_props h r = Some (p, nobjs, lobjs) ∧
     (∀ i o n, nobjs !! i = Some o → nodesData p w hh cache rng !! i = Some n →
        ∃ l, run_nodes run !! i = Some l ∧ h' !! l = Some (CObj (node_object o n))) ∧
     (∀ j o, lobjs !! j = Some o →
        ∃ l, run_links run !! j = Some l ∧ h' !! l = Some (CObj o))).
Proof.
  intros H.
  destruct (layout_heap_extends _ _ _ _ _ _ _ _ H) as ([cs Hcs] & Hn & Hl).
  assert (∀ l c, h !! l = Some c → foldl (write run) h' ws !! l = Some c) as Hold.
  { intros l c Hc. rewrite (writes_old run ws _ (length h) Hn Hl).
    - rewrite Hcs. by apply lookup_app_l_Some.
    - by eapply lookup_lt_Some. }
  assert (∀ l, is_Some (arr_at h l) →
            arr_at (foldl (write run) h' ws) l = arr_at h l) as Harr.
  { intros l [a Ha]. unfold arr_at in *.
    destruct (h !! l) as [c|] eqn:Hc; [|done]. by rewrite (Hold l c Hc). }
  pose proof H as H0. unfold layout_heap in H0.
  apply bind_Some in H0 as ([[p nobjs] lobjs] & Hp & _).
  pose proof Hp as Hp0. unfold read_props in Hp0.
  apply bind_Some in Hp0 as (na & Hna & Hp0).
  apply bind_Some in Hp0 as (la & Hla & Hp0).
  apply bind_Some in Hp0 as (ca & Hca & _).
  split; [done|]. repeat split; try (apply Harr; by eexists).
  - intros l Hin. apply lookup_ge_None.
    apply elem_of_app in Hin as [Hin|Hin].
    + rewrite Forall_forall in Hn. by apply Hn.
    + rewrite Forall_forall in Hl. by apply Hl.
  - exists p, nobjs, lobjs. split; [done|].
    by apply (layout_heap_clones r w hh cache rng h run h' p nobjs lobjs).
Qed.

(** ** Pins within a run *)

Lemma snap_to_pins_honours_pins : honours_pins snap_to_pins.
Proof.
  intros a lks nds. unfold snap_to_pins. apply Forall2_fmap_r, Forall_Forall2_diag.
  apply Forall_forall. intros n _. simpl. repeat split; try done.
  - by intros x ->.
  - by intros y ->.
Qed.

Lemma node_at_with_sim v k s c j i :
  node_at (with_sim v k s c) j i =
  if bool_decide (j = k ∧ k < length (sims v))%nat then sim_nodes s !! i
  else node_at v j i.
Proof.
  unfold node_at. simpl. case_bool_decide as H.
  - destruct H as [-> Hlt]. by rewrite list_lookup_insert_eq.
  - destruct (decide (j = k)) as [->|Hne].
    + rewrite list_insert_ge; [done|]. apply Nat.nlt_ge. tauto.
    + by rewrite list_lookup_insert_ne.
Qed.

Lemma node_at_stop_at c v k i :
  (s ← stop_at c (sims v) !! k; sim_nodes s !! i) = node_at v k i.
Proof.
  unfold node_at, stop_at. destruct (decide (c = k)) as [->|Hne].
  - rewrite list_lookup_alter_eq. by destruct (sims v !! k).
  - by rewrite list_lookup_alter_ne.
Qed.

(** A run of the effect leaves the nodes of the earlier simulations alone. *)
Lemma node_at_render p w h rng v v' k i n :
  render p w h rng v = Some v' → node_at v k i = Some n → node_at v' k i = Some n.
Proof.
  intros Hr Hn.
  assert (node_at (run_cleanup v) k i = Some n) as Hn1.
  { unfold run_cleanup. destruct (cleanup v) as [c|]; [|done].
    unfold node_at. simpl. by rewrite node_at_stop_at. }
  unfold render in Hr; rewrite effect_eq in Hr; cbv zeta in Hr. destruct (nodes p); [by injection Hr as <-|].
  apply bind_Some in Hr as (lks & _ & [= <-]).
  unfold node_at in *. simpl.
  destruct (simulationRef (run_cleanup v)) as [c|].
  - pose proof (node_at_stop_at c (run_cleanup v) k i) as Hs.
    unfold node_at in Hs. rewrite Hn1 in Hs.
    apply bind_Some in Hs as (s & Hs & Hi).
    by rewrite (lookup_app_l_Some _ _ _ _ Hs).
  - apply bind_Some in Hn1 as (s & Hs & Hi).
    by rewrite (lookup_app_l_Some _ _ _ _ Hs).
Qed.

(** Within a run no event takes a pin away: once [fx] and [fy] of a node
    are set, they stay set, whatever is dragged, however often the timer
    fires and whatever is laid out next. *)
Lemma pin_never_released phys e v v' k i n :
  honours_pins phys → step phys e v = Some v' →
  node_at v k i = Some n → is_Some (nd_fx n) → is_Some (nd_fy n) →
  ∃ n', node_at v' k i = Some n' ∧ nd_id n' = nd_id n ∧
        is_Some (nd_fx n') ∧ is_Some (nd_fy n').
Proof.
  intros Hphys Hstep Hn Hfx Hfy.
  assert (∀ j s (f : Node → Node),
            sims v !! j = Some s →
            (∀ m, nd_id (f m) = nd_id m ∧ is_Some (nd_fx (f m)) ∧ is_Some (nd_fy (f m))) →
            ∀ c s', sim_nodes s' = alter f i (sim_nodes s) →
            ∃ n', node_at (with_sim v j s' c) k i = Some n' ∧ nd_id n' = nd_id n ∧
                  is_Some (nd_fx n') ∧ is_Some (nd_fy n')) as Halter.
  { intros j s f Hj Hf c s' Hs'. rewrite node_at_with_sim.
    case_bool_decide as Hc; [|by exists n].
    destruct Hc as [-> _]. unfold node_at in Hn. rewrite Hj in Hn. simpl in Hn.
    rewrite Hs', list_lookup_alter_eq, Hn. simpl. exists (f n).
    destruct (Hf n) as (? & ? & ?). done. }
  destruct e as [p w h rng|j|i'|j i' ex ey|j i']; simpl in Hstep.
  - exists n. split; [by eapply node_at_render|done].
  - injection Hstep as <-. unfold frame.
    destruct (sims v !! j) as [s|] eqn:Hj; [|by exists n].
    destruct (sim_running s); [|by exists n].
    rewrite node_at_with_sim. case_bool_decide as Hc; [|by exists n].
    destruct Hc as [-> _]. unfold node_at in Hn. rewrite Hj in Hn. simpl in Hn.
    simpl. pose proof (Hphys (next_alpha s) (sim_links s) (sim_nodes s)) as H2.
    destruct (Forall2_lookup_l _ _ _ _ _ H2 Hn) as (n' & Hn' & Hid & Hx & Hy & _).
    exists n'. by rewrite Hn', Hid, Hx, Hy.
  - injection Hstep as <-. unfold drag_start.
    destruct (svg v) as [j|]; [|by exists n].
    destruct (sims v !! j) as [s|] eqn:Hj; [|by exists n].
    case_bool_decide; [|by exists n].
    destruct (decide (i' = i)) as [->|Hne].
    + eapply (Halter j s (λ m, pin m (Some (nd_x m)) (Some (nd_y m)))); [done| |].
      * intros m. simpl. repeat split; by eexists.
      * unfold dragstarted. simpl. by destruct (bool_decide _).
    + rewrite node_at_with_sim. case_bool_decide as Hc; [|by exists n].
      destruct Hc as [-> _]. unfold node_at in Hn. rewrite Hj in Hn. simpl in Hn.
      exists n. split; [|done]. unfold dragstarted. simpl.
      destruct (bool_decide _); simpl; by rewrite list_lookup_alter_ne.
  - injection Hstep as <-. unfold drag_move.
    destruct (sims v !! j) as [s|] eqn:Hj; [|by exists n].
    case_bool_decide; [|by exists n].
    destruct (decide (i' = i)) as [->|Hne].
    + eapply (Halter j s (λ m, pin m (Some ex) (Some ey))); [done| |done].
      intros m. simpl. repeat split; by eexists.
    + rewrite node_at_with_sim. case_bool_decide as Hc; [|by exists n].
      destruct Hc as [-> _]. unfold node_at in Hn. rewrite Hj in Hn. simpl in Hn.
      exists n. split; [|done]. simpl. by rewrite list_lookup_alter_ne.
  - injection Hstep as <-. unfold drag_end.
    destruct (sims v !! j) as [s|] eqn:Hj; [|by exists n].
    case_bool_decide; [|by exists n].
    unfold dragended. simpl.
    rewrite node_at_with_sim. case_bool_decide as Hc; [|by exists n].
    destruct Hc as [-> _]. unfold node_at in Hn. rewrite Hj in Hn. simpl in Hn.
    exists n. split; [|done]. by destruct (bool_decide _).
Qed.

(** A tick of a running simulation puts a pinned node on its pin. *)
Lemma pin_holds_position phys k v s i n a b :
  honours_pins phys →
  sims v !! k = Some s → sim_running s = true →
  sim_nodes s !! i = Some n → nd_fx n = Some a → nd_fy n = Some b →
  ∃ n', node_at (frame phys k v) k i = Some n' ∧
        nd_x n' = a ∧ nd_y n' = b ∧ nd_fx n' = Some a ∧ nd_fy n' = Some b.
Proof.
  intros Hphys Hk Hr Hn Hfx Hfy. unfold frame. rewrite Hk, Hr.
  rewrite node_at_with_sim, bool_decide_eq_true_2
    by (split; [done|by eapply lookup_lt_Some]).
  simpl. pose proof (Hphys (next_alpha s) (sim_links s) (sim_nodes s)) as H2.
  destruct (Forall2_lookup_l _ _ _ _ _ H2 Hn) as (n' & Hn' & _ & Hx & Hy & Hpx & Hpy).
  exists n'. rewrite Hx, Hy. repeat split; auto.
Qed.

(** The end of a gesture leaves the node as the last pointer move put it
    and writes it to the cache under its id. *)
Lemma release_keeps_pin_and_caches k i v s n :
  sims v !! k = Some s → i ∈ sim_gestures s → sim_nodes s !! i = Some n →
  node_at (drag_end k i v) k i = Some n ∧
  nodePositionsRef (drag_end k i v) !! nd_id n = Some (entry_of n).
Proof.
  intros Hk Hin Hn. split.
  - unfold drag_end. rewrite Hk, bool_decide_eq_true_2 by done.
    unfold dragended. simpl.
    rewrite node_at_with_sim, bool_decide_eq_true_2
      by (split; [done|by eapply lookup_lt_Some]).
    by destruct (bool_decide _).
  - rewrite drag_end_cache, Hk, bool_decide_eq_true_2, Hn by done.
    apply lookup_insert_eq.
Qed.

(** A pointer move puts the pin of the dragged node at the pointer. *)
Lemma move_pins_at_pointer k i ex ey v s n :
  sims v !! k = Some s → i ∈ sim_gestures s → sim_nodes s !! i = Some n →
  node_at (drag_move k i ex ey v) k i = Some (pin n (Some ex) (Some ey)).
Proof.
  intros Hk Hin Hn. unfold drag_move. rewrite Hk, bool_decide_eq_true_2 by done.
  rewrite node_at_with_sim, bool_decide_eq_true_2
    by (split; [done|by eapply lookup_lt_Some]).
  simpl. by rewrite list_lookup_alter_eq, Hn.
Qed.

(** ** The scenario of the specification *)

Example demo_classification :
  map style_of (nodesData demo 800 600 ∅ (draws (1 # 2))) =
  [ ("A", Some my_stock, Some 30, Some "#007AFF");
    ("B", Some related, Some 20, Some "#34C759");
    ("C", Some other, Some 10, Some "#D1D1D6") ].
Proof. vm_compute. done. Qed.

(** On the heap the clone of B carries the same styling, next to the
    fields of the props node. *)
Example demo_clone_of_B :
  (o ← obj_at demo_layout.2 (VRef 8);
   Some (o !! "id", o !! "name", o !! "type", o !! "radius")) =
  Some (Some (VStr "B"), Some (VStr "Beta"), Some (VStr "related"),
        Some (VNum (Fin 20))).
Proof. vm_compute. done. Qed.

(** ** The theorems at the sample session *)

Lemma cache_written_on_release_witness :
  step snap_to_pins (DragEnd 0 1) demo_dragging = Some (drag_end 0 1 demo_dragging) ∧
  (∀ nid, is_Some (nodePositionsRef demo_dragging !! nid) →
          is_Some (nodePositionsRef (drag_end 0 1 demo_dragging) !! nid)).
Proof.
  split; [reflexivity|].
  exact (proj1 (cache_written_at_end_and_release snap_to_pins (DragEnd 0 1)
                  demo_dragging (drag_end 0 1 demo_dragging) eq_refl)).
Defined.

Lemma stop_before_start_witness :
  run snap_to_pins demo_session init = Some demo_view ∧
  (∀ j k, running demo_view j → running demo_view k → j = k) ∧
  (∀ k, cleanup demo_view = Some k → ∀ j, ¬ running (unmount demo_view) j) ∧
  effect_outcome demo_dangling 800 600 (draws (1 # 2)) (run_cleanup demo_view)
    = Thrown demo_thrown ∧
  simulationRef demo_thrown ≠ Some (length (sims demo_view)) ∧
  running (unmount demo_thrown) (length (sims demo_view)).
Proof.
  assert (run snap_to_pins demo_session init = Some demo_view) as H
    by (vm_compute; reflexivity).
  assert (effect_outcome demo_dangling 800 600 (draws (1 # 2)) (run_cleanup demo_view)
          = Thrown demo_thrown) as Ht by (vm_compute; reflexivity).
  pose proof (stop_before_start snap_to_pins demo_session demo_view H)
    as (H1 & _ & _ & H4 & H5).
  destruct (H5 _ _ _ _ _ Ht) as (_ & H6 & _ & H7).
  split; [exact H|]. split; [exact H1|]. split; [exact H4|].
  split; [exact Ht|]. split; [exact H6|exact H7].
Defined.

Lemma props_never_mutated_witness :
  layout_heap demo_ref 800 600 ∅ (draws (1 # 2)) demo_heap = Some demo_layout ∧
  (∀ l c, demo_heap !! l = Some c →
          foldl (write demo_layout.1) demo_layout.2 demo_writes !! l = Some c).
Proof.
  assert (layout_heap demo_ref 800 600 ∅ (draws (1 # 2)) demo_heap =
          Some (demo_layout.1, demo_layout.2)) as H by (vm_compute; reflexivity).
  split; [vm_compute; reflexivity|].
  exact (proj1 (props_never_mutated demo_ref 800 600 ∅ (draws (1 # 2))
                  demo_heap demo_layout.2 demo_layout.1 demo_writes H)).
Defined.

Lemma reheat_is_temporary_witness :
  run snap_to_pins demo_session init = Some demo_view ∧
  Forall (λ s, sim_alphaTarget s = reheat_level (sim_gestures s)) (sims demo_view).
Proof.
  assert (run snap_to_pins demo_session init = Some demo_view) as H
    by (vm_compute; reflexivity).
  split; [exact H|].
  exact (proj1 (reheat_is_temporary snap_to_pins demo_session demo_view H)).
Defined.

(* ================================================================== *)
(** * More of the component *)
(* ================================================================== *)

(** ** Pins and gestures within a run *)

(** X2.  Within a run no sequence of events takes a pin away: a node whose
    [fx] and [fy] are set keeps them set, and keeps its place in the array
    and its id, through every tick, gesture and later layout run, as long
    as the physics leaves pins alone. *)
Theorem pin_survives_every_event phys es v v' k i n :
  honours_pins phys → run phys es v = Some v' →
  node_at v k i = Some n → is_Some (nd_fx n) → is_Some (nd_fy n) →
  ∃ n', node_at v' k i = Some n' ∧ nd_id n' = nd_id n ∧
        is_Some (nd_fx n') ∧ is_Some (nd_fy n').
Proof.
  intros Hphys. revert v n. induction es as [|e es IH]; intros v n Hrun Hn Hfx Hfy.
  - injection Hrun as <-. by exists n.
  - simpl in Hrun. apply bind_Some in Hrun as (v1 & Hstep & Hrun).
    destruct (pin_never_released phys e v v1 k i n Hphys Hstep Hn Hfx Hfy)
      as (n1 & Hn1 & Hid1 & Hfx1 & Hfy1).
    destruct (IH v1 n1 Hrun Hn1 Hfx1 Hfy1) as (n' & Hn' & Hid' & ?).
    exists n'. split; [done|]. split; [congruence|done].
Qed.

Lemma pin_survives_every_event_witness :
  node_at demo_view 0 1 = Some demo_B ∧
  is_Some (nd_fx demo_B) ∧ is_Some (nd_fy demo_B) ∧
  run snap_to_pins demo_later demo_view = Some demo_later_view ∧
  ∃ n', node_at demo_later_view 0 1 = Some n' ∧
        nd_id n' = nd_id demo_B ∧ is_Some (nd_fx n') ∧ is_Some (nd_fy n').
Proof.
  assert (node_at demo_view 0 1 = Some demo_B) as Hn by (vm_compute; reflexivity).
  assert (is_Some (nd_fx demo_B)) as Hfx by (exists (Fin 200); vm_compute; reflexivity).
  assert (is_Some (nd_fy demo_B)) as Hfy by (exists (Fin 120); vm_compute; reflexivity).
  assert (run snap_to_pins demo_later demo_view = Some demo_later_view) as Hrun
    by (vm_compute; reflexivity).
  split; [exact Hn|]. split; [exact Hfx|]. split; [exact Hfy|].
  split; [exact Hrun|].
  exact (pin_survives_every_event snap_to_pins demo_later demo_view
           demo_later_view 0 1 demo_B
           snap_to_pins_honours_pins Hrun Hn Hfx Hfy).
Defined.

(** X3.  A dragged node follows the pointer: after a pointer move to
    [(ex, ey)] and the next tick of its running simulation, the node is at
    [(ex, ey)] and pinned there. *)
Theorem dragged_node_follows_pointer phys k i ex ey v s n :
  honours_pins phys →
  sims v !! k = Some s → sim_running s = true →
  i ∈ sim_gestures s → sim_nodes s !! i = Some n →
  ∃ n', node_at (frame phys k (drag_move k i ex ey v)) k i = Some n' ∧
        nd_id n' = nd_id n ∧ nd_x n' = ex ∧ nd_y n' = ey ∧
        nd_fx n' = Some ex ∧ nd_fy n' = Some ey.
Proof.
  intros Hphys Hk Hr Hin Hn.
  assert (sims (drag_move k i ex ey v) !! k = Some (dragged i ex ey s)) as Hk'.
  { unfold drag_move. rewrite Hk, bool_decide_eq_true_2 by done. simpl.
    apply list_lookup_insert_eq. by eapply lookup_lt_Some. }
  assert (sim_nodes (dragged i ex ey s) !! i = Some (pin n (Some ex) (Some ey))) as Hn'.
  { simpl. by rewrite list_lookup_alter_eq, Hn. }
  unfold frame. rewrite Hk'. simpl sim_running. rewrite Hr.
  rewrite node_at_with_sim, bool_decide_eq_true_2
    by (split; [done|by eapply lookup_lt_Some]).
  pose proof (Hphys (next_alpha (dragged i ex ey s)) (sim_links (dragged i ex ey s))
                (sim_nodes (dragged i ex ey s))) as H2.
  destruct (Forall2_lookup_l _ _ _ _ _ H2 Hn') as (n' & Hl & Hid & Hfx & Hfy & Hx & Hy).
  exists n'. simpl in *. rewrite Hfx, Hfy. repeat split; auto.
Qed.

Lemma dragged_node_follows_pointer_witness :
  sims demo_dragging !! 0%nat = Some demo_dragging_sim ∧
  sim_running demo_dragging_sim = true ∧
  (1%nat ∈ sim_gestures demo_dragging_sim) ∧
  ∃ n', node_at (frame snap_to_pins 0
                   (drag_move 0 1 (Fin (-30)) (Fin 45) demo_dragging)) 0 1 = Some n' ∧
        nd_id n' = nd_id demo_dragging_B ∧ nd_x n' = Fin (-30) ∧ nd_y n' = Fin 45 ∧
        nd_fx n' = Some (Fin (-30)) ∧ nd_fy n' = Some (Fin 45).
Proof.
  assert (sims demo_dragging !! 0%nat = Some demo_dragging_sim) as Hk
    by (vm_compute; reflexivity).
  assert (sim_running demo_dragging_sim = true) as Hr by (vm_compute; reflexivity).
  assert (1%nat ∈ sim_gestures demo_dragging_sim) as Hin
    by (apply (bool_decide_eq_true_1 (1%nat ∈ sim_gestures demo_dragging_sim));
        vm_compute; reflexivity).
  assert (sim_nodes demo_dragging_sim !! 1%nat = Some demo_dragging_B) as Hn
    by (vm_compute; reflexivity).
  split; [exact Hk|]. split; [exact Hr|]. split; [exact Hin|].
  exact (dragged_node_follows_pointer snap_to_pins 0 1 (Fin (-30)) (Fin 45)
           demo_dragging demo_dragging_sim demo_dragging_B
           snap_to_pins_honours_pins Hk Hr Hin Hn).
Defined.

(** ** From one run to the next *)

Lemma nodesData_lookup p w h cache rng j d :
  nodes p !! j = Some d →
  ∃ n' j', nodesData p w h cache rng !! j = Some n' ∧ nd_id n' = nin_id d ∧
           nd_x n' = nd_x (seed_node w h cache rng d j').1 ∧
           nd_y n' = nd_y (seed_node w h cache rng d j').1 ∧
           nd_fx n' = nd_fx (seed_node w h cache rng d j').1 ∧
           nd_fy n' = nd_fy (seed_node w h cache rng d j').1.
Proof.
  intros Hd.
  destruct (Forall2_lookup_l _ _ _ _ _ (nodesData_each p w h cache rng) Hd)
    as (n' & Hn' & j' & Hx & Hy & Hfx & Hfy).
  destruct (Forall2_lookup_l _ _ _ _ _ (nodesData_contract p w h cache rng) Hd)
    as (n'' & Hn'' & Hid & _).
  rewrite Hn' in Hn''. injection Hn'' as <-. by exists n', j'.
Qed.

(** The simulation a layout run builds is the last one, and its nodes are
    the nodes seeded from the cache the run found, as d3 initialises
    them. *)
Lemma render_new_nodes p w h rng v v' j d :
  render p w h rng v = Some v' → nodes p !! j = Some d →
  node_at v' (length (sims v)) j =
    initialize_node <$> nodesData p w h (nodePositionsRef v) rng !! j.
Proof.
  intros Hr Hd. unfold render in Hr; rewrite effect_eq in Hr; cbv zeta in Hr.
  destruct (nodes p) as [|d0 ds] eqn:Hn; [done|].
  apply bind_Some in Hr as (lks & _ & [= <-]).
  assert (length (sims (run_cleanup v)) = length (sims v)) as Hlen.
  { unfold run_cleanup. destruct (cleanup v); [apply stop_at_length|done]. }
  unfold node_at. simpl.
  rewrite lookup_app_r;
    destruct (simulationRef (run_cleanup v)); rewrite ?stop_at_length, Hlen; try lia.
  all: rewrite Nat.sub_diag; simpl; by rewrite run_cleanup_cache, list_lookup_fmap.
Qed.

Lemma drag_end_length k i v : length (sims (drag_end k i v)) = length (sims v).
Proof.
  unfold drag_end. destruct (sims v !! k) as [s|]; [|done].
  case_bool_decide; [|done]. unfold dragended. simpl. apply length_insert.
Qed.

(** X4.  A pin survives a refresh when neither of its coordinates is 0 or
    NaN: after a gesture on a node ends, the next layout run of a snapshot
    that still has the node's id restores the pin the node was released
    with, and the new simulation starts with the node on that pin. *)
Theorem released_node_restored_on_refresh
    k i v s n a b p w h rng v' j d :
  sims v !! k = Some s → i ∈ sim_gestures s → sim_nodes s !! i = Some n →
  nd_fx n = Some a → truthy a = true →
  nd_fy n = Some b → truthy b = true →
  nodes p !! j = Some d → nin_id d = nd_id n →
  render p w h rng (drag_end k i v) = Some v' →
  ∃ n', node_at v' (length (sims v)) j = Some n' ∧ nd_id n' = nd_id n ∧
        nd_x n' = a ∧ nd_y n' = b ∧
        nd_fx n' = Some a ∧ nd_fy n' = Some b.
Proof.
  intros Hk Hin Hn Hfx Ha Hfy Hb Hd Hid Hr.
  destruct (release_keeps_pin_and_caches k i v s n Hk Hin Hn) as [_ Hc].
  rewrite <- (drag_end_length k i v).
  rewrite (render_new_nodes _ _ _ _ _ _ _ _ Hr Hd).
  destruct (nodesData_lookup p w h (nodePositionsRef (drag_end k i v)) rng j d Hd)
    as (n' & j' & Hn' & Hid' & _ & _ & Hfx' & Hfy').
  rewrite <- Hid in Hc.
  destruct (seed_node_cached w h _ rng d j' _ Hc) as (_ & _ & Cfx & Cfy).
  simpl in Cfx, Cfy. rewrite Hfx in Cfx. rewrite Hfy in Cfy.
  simpl in Cfx, Cfy. rewrite Ha in Cfx. rewrite Hb in Cfy.
  rewrite Hn'. exists (initialize_node n'). simpl.
  rewrite Hfx', Hfy', Cfx, Cfy. simpl. repeat split; congruence.
Qed.

Lemma released_node_restored_on_refresh_witness :
  sims demo_dragging !! 0%nat = Some demo_dragging_sim ∧
  render demo 800 600 (draws (1 # 10)) (drag_end 0 1 demo_dragging) = Some demo_refreshed ∧
  ∃ n', node_at demo_refreshed (length (sims demo_dragging)) 1 = Some n' ∧
        nd_id n' = nd_id demo_dragging_B ∧
        nd_x n' = Fin 200 ∧ nd_y n' = Fin 120 ∧
        nd_fx n' = Some (Fin 200) ∧ nd_fy n' = Some (Fin 120).
Proof.
  assert (sims demo_dragging !! 0%nat = Some demo_dragging_sim) as Hk
    by (vm_compute; reflexivity).
  assert (1%nat ∈ sim_gestures demo_dragging_sim) as Hin
    by (apply (bool_decide_eq_true_1 (1%nat ∈ sim_gestures demo_dragging_sim));
        vm_compute; reflexivity).
  assert (sim_nodes demo_dragging_sim !! 1%nat = Some demo_dragging_B) as Hn
    by (vm_compute; reflexivity).
  assert (render demo 800 600 (draws (1 # 10)) (drag_end 0 1 demo_dragging)
          = Some demo_refreshed) as Hr by (vm_compute; reflexivity).
  split; [exact Hk|]. split; [exact Hr|].
  refine (released_node_restored_on_refresh 0 1 demo_dragging demo_dragging_sim
            demo_dragging_B (Fin 200) (Fin 120) demo 800 600 (draws (1 # 10))
            demo_refreshed 1 {| nin_id := "B"; nin_name := "Beta" |}
            Hk Hin Hn _ _ _ _ _ _ Hr); vm_compute; reflexivity.
Defined.

Lemma on_end_exact nds (c : Cache) (n : Node) :
  NoDup (map nd_id nds) → n ∈ nds → on_end nds c !! nd_id n = Some (entry_of n).
Proof.
  revert c. induction nds as [|m r IH]; intros c Hnd Hin; [by apply elem_of_nil in Hin|].
  simpl in Hnd. apply NoDup_cons in Hnd as [Hm Hr].
  rewrite on_end_cons. apply elem_of_cons in Hin as [->|Hin].
  - rewrite on_end_other by done. apply lookup_insert_eq.
  - by apply IH.
Qed.

(** X5.  When a simulation comes to rest its layout is kept: the firing of
    the timer that stops it caches every node, so that, ids being unique,
    the next layout run restores each node that is still in the snapshot
    with the pin it had, and starts it on that pin, or, unpinned, at the
    position the simulation left it (for numbers that are neither 0 nor
    NaN).  With a physics that keeps pinned nodes on their pins, that is
    where the simulation left it in either case. *)
Theorem settled_layout_restored_on_refresh
    phys k v s n p w h rng v' j d :
  sims v !! k = Some s → sim_running s = true →
  sim_running (sim_step phys s) = false →
  NoDup (map nd_id (sim_nodes (sim_step phys s))) →
  n ∈ sim_nodes (sim_step phys s) →
  truthy (nd_x n) = true → truthy (nd_y n) = true →
  nodes p !! j = Some d → nin_id d = nd_id n →
  render p w h rng (frame phys k v) = Some v' →
  ∃ n', node_at v' (length (sims v)) j = Some n' ∧ nd_id n' = nd_id n ∧
        nd_x n' = default (nd_x n) (seed_pin (nd_fx n)) ∧
        nd_y n' = default (nd_y n) (seed_pin (nd_fy n)) ∧
        nd_fx n' = seed_pin (nd_fx n) ∧ nd_fy n' = seed_pin (nd_fy n) ∧
        (honours_pins phys → nd_x n' = nd_x n ∧ nd_y n' = nd_y n).
Proof.
  intros Hk Hr Hend Hnd Hin Hx Hy Hd Hid Hren.
  assert (nodePositionsRef (frame phys k v) !! nd_id n = Some (entry_of n)) as Hc.
  { rewrite frame_cache, Hk, Hr, Hend. simpl. by apply on_end_exact. }
  assert (length (sims (frame phys k v)) = length (sims v)) as Hlen.
  { unfold frame. rewrite Hk, Hr. simpl. apply length_insert. }
  rewrite <- Hlen. rewrite (render_new_nodes _ _ _ _ _ _ _ _ Hren Hd).
  destruct (nodesData_lookup p w h (nodePositionsRef (frame phys k v)) rng j d Hd)
    as (n' & j' & Hn' & Hid' & Hx' & Hy' & Hfx' & Hfy').
  rewrite <- Hid in Hc.
  destruct (seed_node_cached w h _ rng d j' _ Hc) as (Cx & Cy & Cfx & Cfy).
  simpl in Cx, Cy, Cfx, Cfy.
  rewrite Hn'. exists (initialize_node n'). simpl.
  rewrite Hx', Hy', Hfx', Hfy', Cfx, Cfy, Cx, Cy by done.
  split; [done|]. split; [congruence|]. do 4 (split; [done|]).
  intros Hphys.
  assert (∀ m, m ∈ sim_nodes (sim_step phys s) →
            (∀ x, nd_fx m = Some x → nd_x m = x) ∧
            (∀ y, nd_fy m = Some y → nd_y m = y)) as Hon.
  { intros m Hm. apply list_elem_of_lookup in Hm as (q & Hq). simpl in Hq.
    destruct (Forall2_lookup_r _ _ _ _ _
                (Hphys (next_alpha s) (sim_links s) (sim_nodes s)) Hq)
      as (m0 & _ & _ & Hfx0 & Hfy0 & Hpx & Hpy).
    rewrite Hfx0, Hfy0. split; [exact Hpx|exact Hpy]. }
  destruct (Hon n Hin) as [Hpx Hpy].
  split.
  - destruct (nd_fx n) as [f|]; [|done]. simpl.
    destruct (truthy f); [|done]. simpl. symmetry. by apply Hpx.
  - destruct (nd_fy n) as [f|]; [|done]. simpl.
    destruct (truthy f); [|done]. simpl. symmetry. by apply Hpy.
Qed.

Lemma settled_layout_restored_on_refresh_witness :
  sims demo_cooling !! 0%nat = Some demo_cooling_sim ∧
  sim_running (sim_step snap_to_pins demo_cooling_sim) = false ∧
  render demo 800 600 (draws (1 # 10)) (frame snap_to_pins 0 demo_cooling)
    = Some demo_settled ∧
  ∃ n', node_at demo_settled (length (sims demo_cooling)) 0 = Some n' ∧
        nd_id n' = nd_id demo_A ∧
        nd_x n' = default (nd_x demo_A) (seed_pin (nd_fx demo_A)) ∧
        nd_y n' = default (nd_y demo_A) (seed_pin (nd_fy demo_A)) ∧
        nd_fx n' = seed_pin (nd_fx demo_A) ∧ nd_fy n' = seed_pin (nd_fy demo_A) ∧
        (honours_pins snap_to_pins → nd_x n' = nd_x demo_A ∧ nd_y n' = nd_y demo_A).
Proof.
  assert (sims demo_cooling !! 0%nat = Some demo_cooling_sim) as Hk by reflexivity.
  assert (sim_running (sim_step snap_to_pins demo_cooling_sim) = false) as Hend
    by (vm_compute; reflexivity).
  assert (render demo 800 600 (draws (1 # 10)) (frame snap_to_pins 0 demo_cooling)
          = Some demo_settled) as Hr by (vm_compute; reflexivity).
  split; [exact Hk|]. split; [exact Hend|]. split; [exact Hr|].
  refine (settled_layout_restored_on_refresh snap_to_pins 0 demo_cooling
            demo_cooling_sim demo_A demo 800 600 (draws (1 # 10)) demo_settled 0
            {| nin_id := "A"; nin_name := "Alpha" |}
            Hk _ Hend _ _ _ _ _ _ Hr).
  - reflexivity.
  - apply (bool_decide_eq_true_1
             (NoDup (map nd_id (sim_nodes (sim_step snap_to_pins demo_cooling_sim))))).
    vm_compute. reflexivity.
  - apply (list_elem_of_lookup_2 _ 0%nat). vm_compute. reflexivity.
  - vm_compute. reflexivity.
  - vm_compute. reflexivity.
  - vm_compute. reflexivity.
  - vm_compute. reflexivity.
Defined.

(** ** The classifier and the links *)

(** The styling reads the links only through who is joined to an anchor. *)
Lemma style_by_linked p ls ls' w h cache rng :
  (∀ nid, linked_to_anchor ls (myStockCodes p) nid ↔
          linked_to_anchor ls' (myStockCodes p) nid) →
  map style_of (nodesData (with_links p ls) w h cache rng) =
  map style_of (nodesData (with_links p ls') w h cache rng).
Proof.
  intros Hiff. unfold nodesData, seeded, linksData. simpl.
  generalize (seed_nodes w h cache rng (nodes p) 0).1 at 2 4 as l.
  generalize (seed_nodes w h cache rng (nodes p) 0).1 as nds.
  intros nds l. induction l as [|n l IH]; [done|]. simpl. f_equal; [|done].
  unfold classify. destruct (includes (myStockCodes p) (nd_id n)); [done|].
  destruct (isRelated (myStockCodes p) nds (map clone_link ls) (nd_id n)) eqn:Hr;
    destruct (isRelated (myStockCodes p) nds (map clone_link ls') (nd_id n)) eqn:Hr';
    try done.
  - apply isRelated_clones, Hiff in Hr.
    apply (isRelated_clones _ nds) in Hr. congruence.
  - apply isRelated_clones, Hiff in Hr'.
    apply (isRelated_clones _ nds) in Hr'. congruence.
Qed.

(** X6.  The classification does not depend on how the links are written
    down: turning any of them round, listing them in another order or
    listing one twice leaves type, radius and colour of every node as
    they were. *)
Theorem classification_ignores_link_direction_and_order
    (p : Props) (w h : Z) (cache : Cache) (rng : Rng) :
  (∀ turn : LinkIn → bool,
     map style_of
       (nodesData (with_links p (map (λ l, if turn l then flip_link l else l) (links p)))
          w h cache rng) =
     map style_of (nodesData p w h cache rng)) ∧
  (∀ ls, (∀ l, l ∈ ls ↔ l ∈ links p) →
     map style_of (nodesData (with_links p ls) w h cache rng) =
     map style_of (nodesData p w h cache rng)).
Proof.
  assert (with_links p (links p) = p) as Hp by (by destruct p).
  split.
  - intros turn. rewrite <- Hp at 2. apply style_by_linked.
    intros nid. unfold linked_to_anchor. split.
    + intros (l' & Hin & H). apply list_elem_of_fmap in Hin as (l & -> & Hin).
      exists l. split; [done|]. destruct (turn l); simpl in H; tauto.
    + intros (l & Hin & H). exists (if turn l then flip_link l else l). split.
      * apply list_elem_of_fmap. by exists l.
      * destruct (turn l); simpl; tauto.
  - intros ls Hls. rewrite <- Hp at 2. apply style_by_linked.
    intros nid. unfold linked_to_anchor. split; intros (l & Hin & H);
      exists l; (split; [by apply Hls|done]).
Qed.

(** ** What a layout run hands to the simulation *)

Lemma resolve_links_values nds lks lks' :
  resolve_links nds lks = Some lks' → map ln_value lks' = map ln_value lks.
Proof.
  unfold resolve_links. revert lks'. induction lks as [|l r IH]; intros lks' H.
  - by injection H as <-.
  - simpl in H. apply bind_Some in H as (l' & Hl & H).
    apply bind_Some in H as (r' & Hr & [= <-]). simpl.
    rewrite (IH r' Hr). f_equal.
    unfold resolve_link in Hl.
    apply bind_Some in Hl as (a & _ & Hl). apply bind_Some in Hl as (b & _ & [= <-]).
    done.
Qed.

Lemma seed_nodes_names w h cache rng ds k :
  map (λ n, (nd_id n, nd_name n)) (seed_nodes w h cache rng ds k).1 =
  map (λ d, (nin_id d, nin_name d)) ds.
Proof.
  revert k. induction ds as [|d ds IH]; intros k; [done|].
  simpl. unfold seed_node.
  destruct (seed_coord rng (e_x <$> cache !! nin_id d) (centre w) k) as [x k1].
  destruct (seed_coord rng (e_y <$> cache !! nin_id d) (centre h) k1) as [y k2].
  specialize (IH k2). destruct (seed_nodes w h cache rng ds k2) as [ns k3].
  simpl in *. by rewrite IH.
Qed.

Lemma classify_name codes nds lks n :
  nd_name (classify codes nds lks n) = nd_name n.
Proof. unfold classify. by repeat case_match. Qed.

(** X8.  A layout run neither drops, adds, reorders nor renames anything:
    the nodes it seeds carry the ids and names of the snapshot's nodes in
    the snapshot's order, and so do the nodes of the simulation it builds,
    with the styles the classifier gave them; the simulation holds one
    link for each link of the snapshot, in order, with its weight. *)
Theorem layout_keeps_every_node_and_link
    (p : Props) (w h : Z) (rng : Rng) (v : View) :
  map (λ n, (nd_id n, nd_name n)) (nodesData p w h (nodePositionsRef v) rng) =
    map (λ d, (nin_id d, nin_name d)) (nodes p) ∧
  map ln_value (linksData p) = map lin_value (links p) ∧
  (∀ v', nodes p ≠ [] → render p w h rng v = Some v' →
     ∃ s, sims v' !! length (sims v) = Some s ∧
          length (sims v') = S (length (sims v)) ∧
          map (λ n, (nd_id n, nd_name n)) (sim_nodes s) =
            map (λ d, (nin_id d, nin_name d)) (nodes p) ∧
          map style_of (sim_nodes s) =
            map style_of (nodesData p w h (nodePositionsRef v) rng) ∧
          map ln_value (sim_links s) = map lin_value (links p)).
Proof.
  assert (map ln_value (linksData p) = map lin_value (links p)) as Hl.
  { unfold linksData. rewrite map_map. by apply map_ext. }
  assert (map (λ n, (nd_id n, nd_name n)) (nodesData p w h (nodePositionsRef v) rng) =
          map (λ d, (nin_id d, nin_name d)) (nodes p)) as Hnames.
  { unfold nodesData, seeded.
    rewrite <- (seed_nodes_names w h (nodePositionsRef v) rng (nodes p) 0).
    rewrite map_map. apply map_ext. intros n.
    by rewrite classify_id, classify_name. }
  split; [done|]. split; [done|].
  intros v' Hne Hr. unfold render in Hr; rewrite effect_eq in Hr; cbv zeta in Hr.
  destruct (nodes p) as [|d0 ds] eqn:Hn; [done|].
  apply bind_Some in Hr as (lks & Hres & [= <-]). simpl.
  assert (length (sims (run_cleanup v)) = length (sims v)) as Hlen.
  { unfold run_cleanup. destruct (cleanup v); [apply stop_at_length|done]. }
  assert (length (match simulationRef (run_cleanup v) with
                  | Some k => stop_at k (sims (run_cleanup v))
                  | None => sims (run_cleanup v)
                  end) = length (sims v)) as Hlen'.
  { destruct (simulationRef (run_cleanup v)); by rewrite ?stop_at_length. }
  eexists. split.
  { rewrite lookup_app_r by lia. rewrite Hlen', Nat.sub_diag. reflexivity. }
  split; [rewrite length_app, Hlen'; simpl; lia|].
  simpl. rewrite run_cleanup_cache. split; [|split].
  - etrans; [|exact Hnames]. rewrite <- list_fmap_compose. by apply list_fmap_ext.
  - rewrite <- list_fmap_compose. by apply list_fmap_ext.
  - by rewrite (resolve_links_values _ _ _ Hres).
Qed.

(** ** Before the first snapshot *)

(** X9.  Until a snapshot with at least one node arrives nothing happens:
    whatever ticks, gestures and runs of the effect on empty snapshots
    occur, the view stays as it was created, with no simulation, nothing
    cached and no cleanup pending, and the effect never throws. *)
Theorem idle_until_first_snapshot (phys : Physics) (es : list Event) :
  Forall lays_out_nothing es → run phys es init = Some init.
Proof.
  induction 1 as [|e es He _ IH]; [done|].
  simpl. assert (step phys e init = Some init) as ->; [|done].
  destruct e as [p w h rng|k|i|k i ex ey|k i]; simpl in *; try done.
  unfold render; rewrite effect_eq; cbv zeta. by rewrite He.
Qed.

Lemma idle_until_first_snapshot_witness :
  Forall lays_out_nothing demo_waiting ∧
  run snap_to_pins demo_waiting init = Some init.
Proof.
  assert (Forall lays_out_nothing demo_waiting) as H
    by (repeat constructor).
  split; [exact H|].
  exact (idle_until_first_snapshot snap_to_pins demo_waiting H).
Defined.

(** ** Where the cached ids come from *)

Lemma on_end_is_Some nds (c : Cache) (nid : string) :
  is_Some (on_end nds c !! nid) → nid ∈ map nd_id nds ∨ is_Some (c !! nid).
Proof.
  intros H. destruct (decide (nid ∈ map nd_id nds)) as [|Hn]; [by left|].
  right. by rewrite on_end_other in H.
Qed.

Lemma ids_within_mono X Y v : X ⊆ Y → ids_within X v → ids_within Y v.
Proof.
  intros HXY [Hc Hs]. split; [by intros nid ?%Hc%HXY|].
  eapply Forall_impl; [done|]. intros s Hn. simpl in Hn.
  eapply Forall_impl; [done|]. intros n ?. by apply HXY.
Qed.

Lemma ids_within_with_sim X v k s c :
  ids_within X v →
  Forall (λ n, nd_id n ∈ X) (sim_nodes s) →
  (∀ nid, is_Some (c !! nid) → nid ∈ X) →
  ids_within X (with_sim v k s c).
Proof.
  intros [Hc Hs] Hn Hc'. split; [done|]. simpl.
  destruct (decide (k < length (sims v))%nat).
  - by apply Forall_insert.
  - by rewrite list_insert_ge by lia.
Qed.

Lemma ids_within_step phys X e v v' :
  honours_pins phys → ids_within X v → step phys e v = Some v' →
  ids_within (X ++ laid_out e) v'.
Proof.
  intros Hphys Hin Hstep.
  assert (∀ (f : Node → Node) i nds,
            (∀ n, nd_id (f n) = nd_id n) →
            Forall (λ n, nd_id n ∈ X) nds → Forall (λ n, nd_id n ∈ X) (alter f i nds))
    as Halter.
  { intros f i nds Hf Hnds. apply Forall_alter; [done|]. intros n _ Hn. by rewrite Hf. }
  destruct e as [p w h rng|k|i|k i ex ey|k i]; simpl in Hstep; simpl laid_out;
    rewrite ?app_nil_r.
  - assert (ids_within X (run_cleanup v)) as [Hc Hs].
    { destruct Hin as [Hc Hs]. unfold run_cleanup. destruct (cleanup v); [|done].
      split; [done|]. simpl. unfold stop_at. apply Forall_alter; [done|]. by intros s _. }
    unfold render in Hstep; rewrite effect_eq in Hstep; cbv zeta in Hstep. destruct (nodes p) as [|d0 ds] eqn:Hn.
    + injection Hstep as <-. simpl. rewrite app_nil_r. by split.
    + rewrite <- Hn in *. apply bind_Some in Hstep as (lks & _ & [= <-]).
      split; simpl.
      * intros nid ?%Hc. apply elem_of_app. by left.
      * apply Forall_app. split.
        -- assert (Forall (λ s, Forall (λ n, nd_id n ∈ X) (sim_nodes s))
                     (match simulationRef (run_cleanup v) with
                      | Some k => stop_at k (sims (run_cleanup v))
                      | None => sims (run_cleanup v)
                      end)) as Hss.
           { destruct (simulationRef (run_cleanup v)); [|done].
             unfold stop_at. apply Forall_alter; [done|]. by intros s _. }
           eapply Forall_impl; [exact Hss|]. intros s Hsn. simpl in Hsn.
           eapply Forall_impl; [exact Hsn|]. intros n ?. apply elem_of_app. by left.
        -- apply Forall_singleton. simpl. apply Forall_forall. intros n Hnin.
           apply list_elem_of_fmap in Hnin as (n0 & -> & Hn0). simpl.
           apply elem_of_app. right.
           rewrite <- (nodesData_ids p w h (nodePositionsRef (run_cleanup v)) rng).
           apply list_elem_of_fmap. by exists n0.
  - injection Hstep as <-. unfold frame.
    destruct (sims v !! k) as [s|] eqn:Hk; [|done].
    destruct (sim_running s); [|done].
    destruct Hin as [Hc Hs].
    assert (Forall (λ n, nd_id n ∈ X) (sim_nodes (sim_step phys s))) as Hn'.
    { simpl. pose proof (Forall_lookup_1 _ _ _ _ Hs Hk) as Hold. simpl in Hold.
      pose proof (Hphys (next_alpha s) (sim_links s) (sim_nodes s)) as H2.
      apply Forall_forall. intros n' Hn'in.
      apply list_elem_of_lookup in Hn'in as [i Hi].
      destruct (Forall2_lookup_r _ _ _ _ _ H2 Hi) as (n & Hni & Hid & _).
      rewrite Hid. exact (Forall_lookup_1 _ _ _ _ Hold Hni). }
    apply ids_within_with_sim; [by split|done|].
    destruct (sim_running (sim_step phys s)); [done|].
    intros nid [Hnid|Hnid]%on_end_is_Some; [|by apply Hc].
    apply list_elem_of_fmap in Hnid as (n & -> & Hnin).
    rewrite Forall_forall in Hn'. by apply Hn'.
  - injection Hstep as <-. unfold drag_start.
    destruct (svg v) as [k|]; [|done].
    destruct (sims v !! k) as [s|] eqn:Hk; [|done].
    case_bool_decide; [|done]. destruct Hin as [Hc Hs].
    apply ids_within_with_sim; [by split| |done].
    simpl. pose proof (Forall_lookup_1 _ _ _ _ Hs Hk) as Hold. simpl in Hold.
    unfold dragstarted. destruct (bool_decide _); simpl; by apply Halter.
  - injection Hstep as <-. unfold drag_move.
    destruct (sims v !! k) as [s|] eqn:Hk; [|done].
    case_bool_decide; [|done]. destruct Hin as [Hc Hs].
    apply ids_within_with_sim; [by split| |done].
    simpl. pose proof (Forall_lookup_1 _ _ _ _ Hs Hk) as Hold. simpl in Hold.
    by apply Halter.
  - injection Hstep as <-. unfold drag_end.
    destruct (sims v !! k) as [s|] eqn:Hk; [|done].
    case_bool_decide; [|done]. destruct Hin as [Hc Hs].
    pose proof (Forall_lookup_1 _ _ _ _ Hs Hk) as Hold. simpl in Hold.
    unfold dragended. simpl.
    apply ids_within_with_sim; [by split|by destruct (bool_decide _)|].
    assert (sim_nodes (if bool_decide (length (remove_one i (sim_gestures s)) = 0%nat)
                       then sim_cool (with_gestures s (remove_one i (sim_gestures s)))
                       else with_gestures s (remove_one i (sim_gestures s)))
            = sim_nodes s) as -> by (by destruct (bool_decide _)).
    destruct (sim_nodes s !! i) as [n|] eqn:Hi; [|done].
    intros nid Hnid. destruct (decide (nd_id n = nid)) as [<-|Hne].
    + exact (Forall_lookup_1 _ _ _ _ Hold Hi).
    + rewrite lookup_insert_ne in Hnid by done. by apply Hc.
Qed.

Lemma ids_within_run phys es X v0 v1 :
  honours_pins phys → ids_within X v0 → run phys es v0 = Some v1 →
  ids_within (X ++ mjoin (laid_out <$> es)) v1.
Proof.
  intros Hphys. revert X v0. induction es as [|e es IH]; intros X v0 Hin Hr; simpl in *.
  - injection Hr as <-. by rewrite app_nil_r.
  - apply bind_Some in Hr as (v' & Hstep & Hr).
    rewrite app_assoc. eapply IH; [|done]. by eapply ids_within_step.
Qed.

(** X10.  The cache holds only ids that some snapshot has shown: whatever
    happened since the view was created, every cached id is the id of a
    node of a snapshot that was laid out (given a physics that leaves ids
    alone). *)
Theorem cache_holds_only_laid_out_ids
    (phys : Physics) (es : list Event) (v : View) (nid : string) :
  honours_pins phys → run phys es init = Some v →
  is_Some (nodePositionsRef v !! nid) →
  ∃ p w h rng, Render p w h rng ∈ es ∧ nid ∈ map nin_id (nodes p).
Proof.
  intros Hphys Hrun Hnid.
  assert (ids_within [] init) as H0.
  { split; [|by constructor]. intros ? [? H]. simpl in H. by rewrite lookup_empty in H. }
  destruct (ids_within_run phys es [] init v Hphys H0 Hrun) as [Hc _].
  apply Hc in Hnid. simpl in Hnid.
  apply list_elem_of_join in Hnid as (ids & Hin & Hids).
  apply list_elem_of_fmap in Hids as (e & -> & He).
  destruct e as [p w h rng| | | |]; simpl in Hin; try by apply elem_of_nil in Hin.
  by exists p, w, h, rng.
Qed.

Lemma cache_holds_only_laid_out_ids_witness :
  run snap_to_pins demo_session init = Some demo_view ∧
  is_Some (nodePositionsRef demo_view !! "B") ∧
  ∃ p w h rng, Render p w h rng ∈ demo_session ∧ "B" ∈ map nin_id (nodes p).
Proof.
  assert (run snap_to_pins demo_session init = Some demo_view) as Hrun
    by (vm_compute; reflexivity).
  assert (is_Some (nodePositionsRef demo_view !! "B")) as Hb
    by (eexists; vm_compute; reflexivity).
  split; [exact Hrun|]. split; [exact Hb|].
  exact (cache_holds_only_laid_out_ids snap_to_pins demo_session demo_view "B"
           snap_to_pins_honours_pins Hrun Hb).
Defined.

(** ** Nothing is pinned unless it is dragged *)

Lemma on_end_lookup_inv nds (c : Cache) (nid : string) (e : Entry) :
  on_end nds c !! nid = Some e →
  (∃ n, n ∈ nds ∧ e = entry_of n) ∨ c !! nid = Some e.
Proof.
  revert c. induction nds as [|m r IH]; intros c H; [by right|].
  rewrite on_end_cons in H. destruct (IH _ H) as [(n & Hn & ->)|Hc].
  - left. exists n. split; [by right|done].
  - destruct (decide (nd_id m = nid)) as [<-|Hne].
    + rewrite lookup_insert_eq in Hc. injection Hc as <-.
      left. exists m. split; [by left|done].
    + rewrite lookup_insert_ne in Hc by done. by right.
Qed.

Lemma nodesData_unpinned p w h (cache : Cache) rng :
  (∀ nid e, cache !! nid = Some e → e_fx e = None ∧ e_fy e = None) →
  Forall (λ n, nd_fx n = None ∧ nd_fy n = None) (nodesData p w h cache rng).
Proof.
  intros Hc. apply Forall_lookup. intros j n Hn.
  destruct (Forall2_lookup_r _ _ _ _ _ (nodesData_each p w h cache rng) Hn)
    as (d & _ & j' & _ & _ & Hfx & Hfy).
  rewrite Hfx, Hfy. unfold seed_node.
  destruct (seed_coord rng _ (centre w) j') as [x k1].
  destruct (seed_coord rng _ (centre h) k1) as [y k2]. simpl.
  destruct (cache !! nin_id d) as [e|] eqn:He; [|done].
  simpl. destruct (Hc _ _ He) as [-> ->]. done.
Qed.

Lemma unpinned_step phys e v v' :
  honours_pins phys → starts_no_gesture e → unpinned v →
  step phys e v = Some v' → unpinned v'.
Proof.
  intros Hphys He [Hs Hc] Hstep.
  destruct e as [p w h rng|k|i|k i ex ey|k i]; simpl in Hstep; [| |done| |].
  - assert (unpinned (run_cleanup v)) as [Hs1 Hc1].
    { unfold run_cleanup. destruct (cleanup v); [|by split].
      split; [|done]. simpl. unfold stop_at. apply Forall_alter; [done|]. by intros s _. }
    unfold render in Hstep; rewrite effect_eq in Hstep; cbv zeta in Hstep. destruct (nodes p) as [|d0 ds] eqn:Hn.
    + injection Hstep as <-. by split.
    + apply bind_Some in Hstep as (lks & _ & [= <-]).
      split; [|done]. simpl. apply Forall_app. split.
      * destruct (simulationRef (run_cleanup v)); [|done].
        unfold stop_at. apply Forall_alter; [done|]. by intros s _.
      * apply Forall_singleton. split; [done|]. simpl. apply Forall_fmap.
        eapply Forall_impl; [by apply nodesData_unpinned|]. by intros n [? ?].
  - injection Hstep as <-. unfold frame.
    destruct (sims v !! k) as [s|] eqn:Hk; [|by split].
    destruct (sim_running s); [|by split].
    destruct (Forall_lookup_1 _ _ _ _ Hs Hk) as [Hg Hn].
    assert (Forall (λ n, nd_fx n = None ∧ nd_fy n = None) (sim_nodes (sim_step phys s)))
      as Hn'.
    { simpl. pose proof (Hphys (next_alpha s) (sim_links s) (sim_nodes s)) as H2.
      apply Forall_lookup. intros i n' Hi.
      destruct (Forall2_lookup_r _ _ _ _ _ H2 Hi) as (n & Hni & _ & Hfx & Hfy & _).
      rewrite Hfx, Hfy. exact (Forall_lookup_1 _ _ _ _ Hn Hni). }
    split; simpl.
    + destruct (decide (k < length (sims v))%nat).
      * by apply Forall_insert.
      * by rewrite list_insert_ge by lia.
    + destruct (negb _); [done|].
      intros nid e [(n & Hnin & ->)|Hold]%on_end_lookup_inv; [|by eapply Hc].
      rewrite Forall_forall in Hn'. by apply Hn'.
  - injection Hstep as <-. unfold drag_move.
    destruct (sims v !! k) as [s|] eqn:Hk; [|by split].
    destruct (Forall_lookup_1 _ _ _ _ Hs Hk) as [Hg _]. rewrite Hg.
    rewrite bool_decide_eq_false_2 by apply not_elem_of_nil. by split.
  - injection Hstep as <-. unfold drag_end.
    destruct (sims v !! k) as [s|] eqn:Hk; [|by split].
    destruct (Forall_lookup_1 _ _ _ _ Hs Hk) as [Hg _]. rewrite Hg.
    rewrite bool_decide_eq_false_2 by apply not_elem_of_nil. by split.
Qed.

(** X11.  The component pins nothing by itself: as long as no gesture has
    started, no node of any simulation has [fx] or [fy] set and no cache
    entry holds a pin, however often the graph is laid out and however
    long the simulations run (given a physics that leaves pins alone). *)
Theorem nothing_pinned_without_a_gesture
    (phys : Physics) (es : list Event) (v : View) :
  honours_pins phys → Forall starts_no_gesture es →
  run phys es init = Some v →
  (∀ k i n, node_at v k i = Some n → nd_fx n = None ∧ nd_fy n = None) ∧
  (∀ nid e, nodePositionsRef v !! nid = Some e → e_fx e = None ∧ e_fy e = None).
Proof.
  intros Hphys Hes Hrun.
  assert (unpinned init) as H0.
  { split; [by constructor|]. intros nid e H. simpl in H. by rewrite lookup_empty in H. }
  assert (unpinned v) as [Hs Hc].
  { revert H0 Hrun. generalize init as v0. induction Hes as [|e es He _ IH];
      intros v0 H0 Hrun; simpl in Hrun.
    - by injection Hrun as <-.
    - apply bind_Some in Hrun as (v1 & Hstep & Hrun).
      eapply IH; [|done]. by eapply unpinned_step. }
  split; [|done]. intros k i n Hn. unfold node_at in Hn.
  apply bind_Some in Hn as (s & Hk & Hi).
  destruct (Forall_lookup_1 _ _ _ _ Hs Hk) as [_ Hn].
  exact (Forall_lookup_1 _ _ _ _ Hn Hi).
Qed.

Lemma nothing_pinned_without_a_gesture_witness :
  Forall starts_no_gesture demo_hands_off ∧
  run snap_to_pins demo_hands_off init = Some demo_hands_off_view ∧
  (∀ k i n, node_at demo_hands_off_view k i = Some n →
            nd_fx n = None ∧ nd_fy n = None).
Proof.
  assert (Forall starts_no_gesture demo_hands_off) as Hes by (repeat constructor).
  assert (run snap_to_pins demo_hands_off init = Some demo_hands_off_view) as Hrun
    by (vm_compute; reflexivity).
  split; [exact Hes|]. split; [exact Hrun|].
  exact (proj1 (nothing_pinned_without_a_gesture snap_to_pins demo_hands_off
                  demo_hands_off_view snap_to_pins_honours_pins Hes Hrun)).
Defined.

(** ** The clones on the heap *)

Lemma layout_heap_distinct r w hh cache rng h run h' :
  layout_heap r w hh cache rng h = Some (run, h') →
  NoDup (run_nodes run ++ run_links run ++ [nodesData_ref run; linksData_ref run]).
Proof.
  intros H. unfold layout_heap in H.
  apply bind_Some in H as ([[p nobjs] lobjs] & _ & H).
  unfold alloc_all in H. injection H as <- _. simpl.
  rewrite !length_app, !length_fmap. simpl.
  set (a := length h). set (n := length (zip_with _ _ _)). set (m := length lobjs).
  apply NoDup_app. split; [apply NoDup_seq|]. split.
  - intros x Hx [Hx'|Hx']%elem_of_app; apply elem_of_seq in Hx.
    + apply elem_of_seq in Hx'. lia.
    + apply elem_of_cons in Hx' as [->|Hx']; [lia|].
      apply list_elem_of_singleton in Hx'. lia.
  - apply NoDup_app. split; [apply NoDup_seq|]. split.
    + intros x Hx Hx'. apply elem_of_seq in Hx.
      apply elem_of_cons in Hx' as [->|Hx']; [lia|].
      apply list_elem_of_singleton in Hx'. lia.
    + apply NoDup_cons. split; [|apply NoDup_singleton].
      intros Hx%list_elem_of_singleton. lia.
Qed.

(** X12.  The objects of a run never alias: the clones of the nodes, the
    clones of the links and the two arrays are pairwise different cells.
    An assignment to a node (a pin set by a drag, a position set by d3)
    changes the clone of that node alone: every other node, every link
    and both arrays stay as they were; likewise for an assignment to a
    link. *)
Theorem clones_never_alias
    (r : PropsRef) (w hh : Z) (cache : Cache) (rng : Rng)
    (h h' : Heap) (run : Run) :
  layout_heap r w hh cache rng h = Some (run, h') →
  NoDup (run_nodes run ++ run_links run ++ [nodesData_ref run; linksData_ref run]) ∧
  (∀ (hc : Heap) i f x j l,
     i ≠ j → run_nodes run !! j = Some l →
     write run hc (WNode i f x) !! l = hc !! l) ∧
  (∀ (hc : Heap) i f x l,
     l ∈ run_links run ++ [nodesData_ref run; linksData_ref run] →
     write run hc (WNode i f x) !! l = hc !! l) ∧
  (∀ (hc : Heap) i f x j l,
     i ≠ j → run_links run !! j = Some l →
     write run hc (WLink i f x) !! l = hc !! l) ∧
  (∀ (hc : Heap) i f x l,
     l ∈ run_nodes run ++ [nodesData_ref run; linksData_ref run] →
     write run hc (WLink i f x) !! l = hc !! l).
Proof.
  intros H. pose proof (layout_heap_distinct _ _ _ _ _ _ _ _ H) as Hnd.
  split; [done|].
  apply NoDup_app in Hnd as (Hn & Hnl & Hrest).
  apply NoDup_app in Hrest as (Hl & Hla & _).
  repeat split.
  - intros hc i f x j l Hij Hj. simpl.
    destruct (run_nodes run !! i) as [l'|] eqn:Hi; [|done].
    apply list_lookup_alter_ne. intros ->. apply Hij.
    exact (NoDup_lookup _ _ _ _ Hn Hi Hj).
  - intros hc i f x l Hin. simpl.
    destruct (run_nodes run !! i) as [l'|] eqn:Hi; [|done].
    apply list_lookup_alter_ne. intros ->.
    apply (Hnl l); [by eapply list_elem_of_lookup_2|done].
  - intros hc i f x j l Hij Hj. simpl.
    destruct (run_links run !! i) as [l'|] eqn:Hi; [|done].
    apply list_lookup_alter_ne. intros ->. apply Hij.
    exact (NoDup_lookup _ _ _ _ Hl Hi Hj).
  - intros hc i f x l Hin. simpl.
    destruct (run_links run !! i) as [l'|] eqn:Hi; [|done].
    apply list_lookup_alter_ne. intros ->.
    apply elem_of_app in Hin as [Hin|Hin].
    + apply (Hnl l); [done|]. apply elem_of_app. left.
      by eapply list_elem_of_lookup_2.
    + apply (Hla l); [by eapply list_elem_of_lookup_2|done].
Qed.

Lemma clones_never_alias_witness :
  layout_heap demo_ref 800 600 ∅ (draws (1 # 2)) demo_heap =
    Some (demo_layout.1, demo_layout.2) ∧
  NoDup (run_nodes demo_layout.1 ++ run_links demo_layout.1 ++
         [nodesData_ref demo_layout.1; linksData_ref demo_layout.1]).
Proof.
  assert (layout_heap demo_ref 800 600 ∅ (draws (1 # 2)) demo_heap =
          Some (demo_layout.1, demo_layout.2)) as H by (vm_compute; reflexivity).
  split; [exact H|].
  exact (proj1 (clones_never_alias demo_ref 800 600 ∅ (draws (1 # 2))
                  demo_heap demo_layout.2 demo_layout.1 H)).
Defined.

(** ** Layout from a full cache *)

Lemma seed_node_usable w h cache rng rng' d k k' :
  usable_entry cache d →
  (seed_node w h cache rng d k).1 = (seed_node w h cache rng' d k').1 ∧
  (seed_node w h cache rng d k).2 = k.
Proof.
  intros (e & He & Hx & Hy). unfold seed_node. rewrite He. simpl.
  by rewrite Hx, Hy.
Qed.

Lemma seed_nodes_usable w h cache rng rng' ds k k' :
  Forall (usable_entry cache) ds →
  (seed_nodes w h cache rng ds k).1 = (seed_nodes w h cache rng' ds k').1 ∧
  (seed_nodes w h cache rng ds k).2 = k.
Proof.
  intros Hds. revert k k'. induction Hds as [|d ds Hd _ IH]; intros k k'; [done|].
  simpl.
  destruct (seed_node_usable w h cache rng rng' d k k' Hd) as [H1 H2].
  destruct (seed_node w h cache rng d k) as [n k1].
  destruct (seed_node w h cache rng' d k') as [n' k1']. simpl in H1, H2. subst.
  destruct (IH k k1') as [H3 H4].
  destruct (seed_nodes w h cache rng ds k) as [ns k2].
  destruct (seed_nodes w h cache rng' ds k1') as [ns' k2']. simpl in *. by subst.
Qed.

(** X13.  A layout run whose nodes all have a cache entry with
    coordinates that are neither 0 nor NaN never calls [Math.random]: it
    consumes no draw and seeds, classifies and styles the nodes the same
    way whatever the random stream is. *)
Theorem fully_cached_layout_ignores_random
    (p : Props) (w h : Z) (cache : Cache) (rng rng' : Rng) :
  Forall (usable_entry cache) (nodes p) →
  nodesData p w h cache rng = nodesData p w h cache rng' ∧
  (seed_nodes w h cache rng (nodes p) 0).2 = 0%nat.
Proof.
  intros Hp.
  destruct (seed_nodes_usable w h cache rng rng' (nodes p) 0 0 Hp) as [H1 H2].
  split; [|done]. unfold nodesData, seeded. by rewrite H1.
Qed.

Lemma fully_cached_layout_ignores_random_witness :
  Forall (usable_entry demo_cache) (nodes demo) ∧
  nodesData demo 800 600 demo_cache (draws 0) =
  nodesData demo 800 600 demo_cache (draws (9 # 10)).
Proof.
  assert (Forall (usable_entry demo_cache) (nodes demo)) as H.
  { repeat constructor; eexists; (split; [vm_compute; reflexivity|]); split; reflexivity. }
  split; [exact H|].
  exact (proj1 (fully_cached_layout_ignores_random demo 800 600 demo_cache
                  (draws 0) (draws (9 # 10)) H)).
Defined.

(** ** While a node is held *)

Lemma held_step_running phys s :
  sim_inv s → sim_gestures s ≠ [] → sim_running (sim_step phys s) = true.
Proof.
  intros [Hlo Hhi Ht] Hg. simpl. unfold Qlt_bool. rewrite negb_involutive.
  apply Qle_bool_iff. unfold next_alpha, alphaDecay, alphaMin. rewrite Ht.
  destruct (sim_gestures s); [done|]. simpl. lra.
Qed.

Lemma held_frame phys k v :
  held v k →
  held (frame phys k v) k ∧
  nodePositionsRef (frame phys k v) = nodePositionsRef v.
Proof.
  intros (s & Hs & Hinv & Hg & Hr).
  pose proof (held_step_running phys s Hinv Hg) as Hr'.
  unfold frame. rewrite Hs, Hr, Hr'. split; [|done].
  exists (sim_step phys s). repeat split.
  - simpl. rewrite list_lookup_insert_eq; [done|]. by eapply lookup_lt_Some.
  - by apply sim_inv_step.
  - by apply sim_inv_step.
  - by apply sim_inv_step.
  - done.
  - done.
Qed.

(** X14.  A layout does not come to rest while a node is held: with a
    gesture in progress on a running simulation, no number of timer
    firings stops it, so its "end" callback does not fire and the cache
    stays as it is. *)
Theorem held_simulation_never_settles
    (phys : Physics) (v : View) (k n : nat) :
  held v k →
  running (frames phys k n v) k ∧
  nodePositionsRef (frames phys k n v) = nodePositionsRef v.
Proof.
  intros Hv.
  assert (held (frames phys k n v) k ∧
          nodePositionsRef (frames phys k n v) = nodePositionsRef v) as [Hh Hc].
  { induction n as [|n [IH1 IH2]]; [done|].
    unfold frames in *. simpl.
    destruct (held_frame phys k _ IH1) as [H1 H2].
    split; [done|]. by rewrite H2. }
  split; [|done]. destruct Hh as (s & Hs & _ & _ & Hr). by exists s.
Qed.

Lemma held_simulation_never_settles_witness :
  held demo_dragging 0 ∧
  running (frames snap_to_pins 0 500 demo_dragging) 0.
Proof.
  assert (held demo_dragging 0) as H.
  { exists demo_dragging_sim. split; [vm_compute; reflexivity|].
    split; [|split; [vm_compute; discriminate|vm_compute; reflexivity]].
    split; [vm_compute; discriminate|vm_compute; discriminate|vm_compute; reflexivity]. }
  split; [exact H|].
  exact (proj1 (held_simulation_never_settles snap_to_pins demo_dragging 0 500 H)).
Defined.

(** ** Links and their nodes *)

Lemma node_by_id_found nds s i j :
  node_by_id nds s i = Some j →
  (i ≤ j)%nat ∧ ∃ n, nds !! (j - i)%nat = Some n ∧ nd_id n = s.
Proof.
  revert i. induction nds as [|n r IH]; intros i H; [done|]. simpl in H.
  destruct (node_by_id r s (S i)) as [j'|] eqn:Hr.
  - injection H as ->. destruct (IH _ Hr) as (Hle & m & Hm & Hid).
    split; [lia|]. exists m. split; [|done].
    replace (j - i)%nat with (S (j - S i)) by lia. done.
  - case_bool_decide as Hn; [|done]. injection H as <-.
    split; [lia|]. exists n. by rewrite Nat.sub_diag.
Qed.

Lemma resolve_link_attached nds l r :
  resolve_link nds (clone_link l) = Some r → attached nds l r.
Proof.
  unfold resolve_link. simpl. intros H.
  apply bind_Some in H as (src & Hs & H).
  apply bind_Some in H as (tgt & Ht & [= <-]).
  apply fmap_Some in Hs as (i & Hi & ->).
  apply fmap_Some in Ht as (j & Hj & ->).
  apply node_by_id_found in Hi as (_ & n & Hn & Hnid).
  apply node_by_id_found in Hj as (_ & m & Hm & Hmid).
  rewrite Nat.sub_0_r in Hn, Hm. by exists i, j, n, m.
Qed.

(** X15.  When [d3.forceLink] accepts the links, every simulation link is
    attached to two nodes of the run that carry the ids the snapshot's
    link names, link by link in the snapshot's order; so every line the
    tick callback paints has all four coordinates. *)
Theorem accepted_links_are_attached
    (p : Props) (nds : list Node) (lks : list SimLink) :
  resolve_links nds (linksData p) = Some lks →
  Forall2 (attached nds) (links p) lks ∧
  Forall line_drawn (sc_lines (on_tick nds lks)).
Proof.
  unfold resolve_links, linksData. intros H. apply mapM_Some in H.
  apply Forall2_fmap_l in H.
  assert (Forall2 (attached nds) (links p) lks) as Ha.
  { eapply Forall2_impl; [exact H|]. intros l r Hr. by apply resolve_link_attached. }
  split; [done|]. simpl. apply Forall_fmap, Forall_forall. intros r Hr.
  apply list_elem_of_lookup in Hr as (q & Hq).
  destruct (Forall2_lookup_r _ _ _ _ _ Ha Hq) as (l & _ & i & j & n & m & Hi & Hj & Hn & Hm & _).
  unfold line_drawn. simpl. rewrite Hi, Hj. simpl. rewrite Hn, Hm. simpl.
  repeat split; by eexists.
Qed.

Lemma accepted_links_are_attached_witness :
  resolve_links (nodesData demo 800 600 ∅ (draws (1 # 2))) (linksData demo) =
    Some (sim_links demo_sim) ∧
  Forall line_drawn
    (sc_lines (on_tick (nodesData demo 800 600 ∅ (draws (1 # 2))) (sim_links demo_sim))).
Proof.
  assert (resolve_links (nodesData demo 800 600 ∅ (draws (1 # 2))) (linksData demo) =
          Some (sim_links demo_sim)) as H by (vm_compute; reflexivity).
  split; [exact H|].
  exact (proj2 (accepted_links_are_attached demo _ _ H)).
Defined.
